(** * Marker detector: axis rasterizer, corner resolver and ring decoder

    A shallow embedding of [marker_detector.py].  The module has two pure
    helpers, [bresenhamLineGenerator] and [computeDistance], and one frame
    routine, [detectAndLabelMarkers], whose OpenCV front end (threshold,
    contours, polygon approximation) and drawing calls are outside of the
    embedding: the routine is modelled from the list [polygons] and the
    masked grayscale image [gray] onwards.

    Conventions.
    - Pixel coordinates are [Z]; a point is a pair [(x, y)].  The source
      computes on OpenCV's 32-bit contour points; no wrap-around is
      modelled, coordinates of a frame being far below 2^31.
    - A Python exception is a value of [exn]; code that can raise lives in
      the [result] monad.
    - The floating point expressions of the source are read exactly: the
      slope [dy / dx] is a rational, [computeDistance] returns the square
      root of an integer, kept as its radicand, and [int(t * c)] for the
      constants 0.9, 0.85 and [int(L / 10 * 1.95)] are integer quotients
      of the exact products.  On operands of the size of a frame the
      doubles of the source give the same values: the three tests on the
      slope are exact as long as [dx] and [dy] are below 2^52, and the
      lemmas of the last section evaluate the double precision
      expressions next to these readings.
    - The two offsets of a row, [qx] and [qy], are doubles the source gets
      from the cosine and sine of the C library; they are left out of the
      embedding, which carries the integer fields of a row. *)

From Stdlib Require Import ZArith List Sorted Bool Lia QArith String Ascii.
From Stdlib Require Import Floats Uint63.

Set Warnings "-inexact-float".
Import ListNotations.
Local Open Scope Z_scope.

(** ** Exceptions *)

Inductive exn : Type := IndexError | ValueError | ZeroDivisionError.

Inductive result (A : Type) : Type :=
| OK (a : A)
| Raise (e : exn).
Arguments OK {A} a.
Arguments Raise {A} e.

Definition bind {A B : Type} (m : result A) (k : A -> result B) : result B :=
  match m with
  | OK a => k a
  | Raise e => Raise e
  end.

Notation "x <- m ;; k" := (bind m (fun x => k))
  (at level 61, m at next level, right associativity).

Definition point : Type := (Z * Z)%type.

(** ** Python primitives *)

(** [a / b] on integers: true division, [ZeroDivisionError] on [b = 0]. *)
Definition truediv (a b : Z) : result Q :=
  if b =? 0 then Raise ZeroDivisionError
  else OK (Qmake (Z.sgn b * a) (Z.to_pos (Z.abs b))).

Definition Qlt_bool (a b : Q) : bool := negb (Qle_bool b a).

(** [seq[i]] for a list and a non-negative index. *)
Definition getitem {A : Type} (l : list A) (i : Z) : result A :=
  if i <? 0 then Raise IndexError
  else match nth_error l (Z.to_nat i) with
       | Some a => OK a
       | None => Raise IndexError
       end.

Definition len {A : Type} (l : list A) : Z := Z.of_nat (List.length l).

(** ** bresenhamLineGenerator *)

Module Bresenham.

(** One pass of the loop body (lines 68-82 and 85-99).  The [flag] branch
    of the first pass sets [xPrevious], [pPrevious] and [p] to [x0], [p0]
    and [p0], the values [x] and [p] are started with here. *)
Definition lineStep (dx dy xStep yStep : Z) (s : Z * Z * Z) : Z * Z * Z :=
  let '(x, y, p) := s in
  let xPrevious := x in
  let pPrevious := p in
  let x := if 0 <=? p then x + xStep else x in
  let p := pPrevious + 2 * dx - 2 * dy * Z.abs (x - xPrevious) in
  let y := y + yStep in
  (x, y, p).

(** [for _ in range(n)]: the body [n] times, appending [emit x y]. *)
Fixpoint lineLoop (n : nat) (dx dy xStep yStep : Z) (emit : Z -> Z -> point)
    (s : Z * Z * Z) : list point :=
  match n with
  | O => []
  | S n' =>
      let s' := lineStep dx dy xStep yStep s in
      let '(x, y, _) := s' in
      emit x y :: lineLoop n' dx dy xStep yStep emit s'
  end.

Definition slopeOf (dx dy : Z) : result Q :=
  if negb (dx =? 0) then truediv dy dx else OK (10 # 1)%Q.

Definition bresenhamLineGenerator (x0 y0 x1 y1 : Z) : result (list point) :=
  let dx := Z.abs (x1 - x0) in
  let dy := Z.abs (y1 - y0) in
  slope <- slopeOf dx dy ;;
  let linePixel := [(x0, y0)] in
  let yStep := if Qle_bool 1 slope && (y0 >? y1) then -1 else 1 in
  let xStep :=
    if (((x0 >? x1) || (y0 >? y1)) && Qlt_bool slope 1)
       || (Qlt_bool 1 slope && (x0 >? x1) && (y0 >? y1))
       || ((x0 >? x1) && (y0 <? y1))
    then -1 else 1 in
  if Qlt_bool slope 1 then
    (* x0, x1, y0, y1 = y0, y1, x0, x1 *)
    let '(x0, x1, y0, y1) := (y0, y1, x0, x1) in
    let dx := Z.abs (x1 - x0) in
    let dy := Z.abs (y1 - y0) in
    let p0 := 2 * dx - dy in
    OK (linePixel ++
        lineLoop (Z.to_nat (Z.abs (y1 - y0))) dx dy xStep yStep
                 (fun x y => (y, x)) (x0, y0, p0))
  else
    let p0 := 2 * dx - dy in
    OK (linePixel ++
        lineLoop (Z.to_nat (Z.abs (y1 - y0))) dx dy xStep yStep
                 (fun x y => (x, y)) (x0, y0, p0)).

End Bresenham.

(** ** computeDistance and the polygon loop of detectAndLabelMarkers *)

Module Detector.

Import Bresenham.

(** The value [r ** 0.5] of an integer [r], kept as its radicand. *)
Inductive root : Type := Sqrt (radicand : Z).

(** [d < c] for a root [d] and a non-negative integer constant [c]. *)
Definition root_ltb (d : root) (c : Z) : bool :=
  let 'Sqrt r := d in r <? c * c.

Definition computeDistance (p1 p2 : point) : root :=
  Sqrt ((fst p2 - fst p1) ^ 2 + (snd p2 - snd p1) ^ 2).

(** [enumerate(l, start)] *)
Fixpoint enumerateFrom {A : Type} (start : Z) (l : list A) : list (Z * A) :=
  match l with
  | [] => []
  | a :: l' => (start, a) :: enumerateFrom (start + 1) l'
  end.

Definition enumerate {A : Type} (l : list A) : list (Z * A) :=
  enumerateFrom 0 l.

(** [(a == b).all()] on two coordinate pairs. *)
Definition pointEq (a b : point) : bool :=
  (fst a =? fst b) && (snd a =? snd b).

(** The comprehension of lines 169-174 over the items of
    [enumerate(poly)]. *)
Fixpoint shortSides (poly : list point) (totalVertices : Z)
    (items : list (Z * point)) : result (list Z) :=
  match items with
  | [] => OK []
  | (vertexIndex, vertex) :: rest =>
      next <- getitem poly ((vertexIndex + 1) mod totalVertices) ;;
      tl <- shortSides poly totalVertices rest ;;
      OK (if root_ltb (computeDistance vertex next) 80
          then vertexIndex :: tl else tl)
  end.

Definition matchingSidesOf (poly : list point) : result (list Z) :=
  shortSides poly (len poly) (enumerate poly).

(** Lines 196-205: the point two sides have in common, if any. *)
Definition commonPoint (firstSideFirstPoint firstSideSecondPoint
    secondSideFirstPoint secondSideSecondPoint : point) : option point :=
  if pointEq firstSideFirstPoint secondSideFirstPoint
     || pointEq firstSideFirstPoint secondSideSecondPoint
  then Some firstSideFirstPoint
  else if pointEq firstSideSecondPoint secondSideFirstPoint
          || pointEq firstSideSecondPoint secondSideSecondPoint
  then Some firstSideSecondPoint
  else None.

(** The loop of lines 177-313 over the items of
    [enumerate(matchingSides)].  [marker] stands for the code run under
    [if cornerFound:] once the corner and the middle point are known; the
    [break] that ends it leaves the loop with its result. *)
Fixpoint cornerLoop {M : Type} (marker : point -> point -> result M)
    (poly : list point) (totalVertices : Z) (matchingSides : list Z)
    (items : list (Z * Z)) : result (option M) :=
  match items with
  | [] => OK None
  | (loopIndex, side) :: rest =>
      firstSideFirstPoint <- getitem poly side ;;
      firstSideSecondPoint <- getitem poly ((side + 1) mod totalVertices) ;;
      next <- getitem matchingSides ((loopIndex + 1) mod 3) ;;
      secondSideFirstPoint <- getitem poly next ;;
      secondSideSecondPoint <- getitem poly ((next + 1) mod totalVertices) ;;
      match commonPoint firstSideFirstPoint firstSideSecondPoint
                        secondSideFirstPoint secondSideSecondPoint with
      | Some concaveCornerPoint =>
          third <- getitem matchingSides ((loopIndex + 2) mod 3) ;;
          lowerSide0 <- getitem poly third ;;
          lowerSide1 <- getitem poly ((third + 1) mod totalVertices) ;;
          let middlePointX := (fst lowerSide0 + fst lowerSide1) / 2 in
          let middlePointY := (snd lowerSide0 + snd lowerSide1) / 2 in
          let lowerSideMiddlePoint := (middlePointX, middlePointY) in
          m <- marker concaveCornerPoint lowerSideMiddlePoint ;;
          OK (Some m)
      | None => cornerLoop marker poly totalVertices matchingSides rest
      end
  end.

(** The corner resolver alone: the loop with the decoding left out. *)
Definition resolveCorner (poly : list point) : result (option (point * point)) :=
  matchingSides <- matchingSidesOf poly ;;
  cornerLoop (fun a m => OK (a, m)) poly (len poly) matchingSides
             (enumerate matchingSides).

(** ** The ring decoder (lines 239-285) *)

(** The grayscale image: a [rows] x [cols] array of intensities. *)
Record image : Type := { rows : Z; cols : Z; pixel : Z -> Z -> Z }.

(** One axis of a numpy index: negative indices count from the end. *)
Definition npIndex (n i : Z) : result Z :=
  if (0 <=? i) && (i <? n) then OK i
  else if (- n <=? i) && (i <? 0) then OK (i + n)
  else Raise IndexError.

(** [gray[r, c]] *)
Definition grayAt (gray : image) (r c : Z) : result Z :=
  r' <- npIndex (rows gray) r ;;
  c' <- npIndex (cols gray) c ;;
  OK (pixel gray r' c').

Fixpoint rangeUp (fuel : nat) (start stop step : Z) : list Z :=
  match fuel with
  | O => []
  | S fuel' =>
      if start <? stop then start :: rangeUp fuel' (start + step) stop step
      else []
  end.

Fixpoint rangeDown (fuel : nat) (start stop step : Z) : list Z :=
  match fuel with
  | O => []
  | S fuel' =>
      if stop <? start then start :: rangeDown fuel' (start + step) stop step
      else []
  end.

(** [range(start, stop, step)]: a zero step is a [ValueError]; the fuel
    bounds the number of elements from above. *)
Definition range3 (start stop step : Z) : result (list Z) :=
  if step =? 0 then Raise ValueError
  else if 0 <? step then OK (rangeUp (Z.to_nat (stop - start)) start stop step)
  else OK (rangeDown (Z.to_nat (start - stop)) start stop step).

(** [s[::-1]] *)
Definition reversed (s : string) : string :=
  string_of_list_ascii (rev (list_ascii_of_string s)).

Fixpoint int2Digits (s : string) (acc : Z) : result Z :=
  match s with
  | EmptyString => OK acc
  | String c s' =>
      if Ascii.eqb c "0" then int2Digits s' (2 * acc)
      else if Ascii.eqb c "1" then int2Digits s' (2 * acc + 1)
      else Raise ValueError
  end.

(** [int(s, 2)] on a string of binary digits; the empty string and any
    other character are a [ValueError]. *)
Definition int2 (s : string) : result Z :=
  match s with
  | EmptyString => Raise ValueError
  | _ => int2Digits s 0
  end.

(** [int(markerAxisLen / 10 * 1.95)] *)
Definition cycleJumpOf (markerAxisLen : Z) : Z := markerAxisLen * 195 / 1000.

(** Lines 253-256: the index looked up for a sample centre. *)
Definition warp (actCycle tempIndex : Z) : Z :=
  if existsb (Z.eqb actCycle) [1; 2; 3; 4] then tempIndex * 85 / 100
  else if actCycle =? 0 then tempIndex * 9 / 10
  else tempIndex.

(** The loop of lines 243-281, drawing left out. *)
Fixpoint sampleLoop (gray : image) (markerAxis : list point)
    (centres : list Z) (actCycle : Z) (binaryRepr : string) : result string :=
  match centres with
  | [] => OK binaryRepr
  | intervalCentreIndex :: rest =>
      let tempIndex := intervalCentreIndex in
      let tempIndex := warp actCycle tempIndex in
      let actCycle := actCycle + 1 in
      pt <- getitem markerAxis tempIndex ;;
      v <- grayAt gray (snd pt) (fst pt) ;;
      let binaryRepr := (binaryRepr ++ (if v >? 180 then "0" else "1"))%string in
      sampleLoop gray markerAxis rest actCycle binaryRepr
  end.

Definition decodeRing (gray : image) (markerAxis : list point) : result Z :=
  let markerAxisLen := len markerAxis in
  let actCycle := 0 in
  let cycleJump := cycleJumpOf markerAxisLen in
  let binaryRepr := EmptyString in
  centres <- range3 cycleJump markerAxisLen cycleJump ;;
  binaryRepr <- sampleLoop gray markerAxis centres actCycle binaryRepr ;;
  int2 (reversed binaryRepr).

(** ** Output rows *)

(** The integer fields of a row
    [currentFrame,binaryRepr,markerAxis[0][0],markerAxis[0][1],qx,qy,0]. *)
Record OutputRecord : Type := {
  frameIndex : Z;
  identifier : Z;
  anchorX : Z;
  anchorY : Z
}.

(** Lines 233-294: the code under [if cornerFound:] from the axis on. *)
Definition decodeMarker (gray : image) (currentFrame : Z)
    (concaveCornerPoint lowerSideMiddlePoint : point) : result OutputRecord :=
  markerAxis <- bresenhamLineGenerator (fst concaveCornerPoint)
                  (snd concaveCornerPoint) (fst lowerSideMiddlePoint)
                  (snd lowerSideMiddlePoint) ;;
  binaryRepr <- decodeRing gray markerAxis ;;
  first <- getitem markerAxis 0 ;;
  OK {| frameIndex := currentFrame; identifier := binaryRepr;
        anchorX := fst first; anchorY := snd first |}.

(** The body of [for poly in polygons]. *)
Definition processPolygon (gray : image) (currentFrame : Z)
    (poly : list point) : result (option OutputRecord) :=
  matchingSides <- matchingSidesOf poly ;;
  cornerLoop (decodeMarker gray currentFrame) poly (len poly) matchingSides
             (enumerate matchingSides).

Fixpoint polygonLoop (gray : image) (currentFrame : Z)
    (polygons : list (list point)) (outputFileContent : list OutputRecord)
    : result (list OutputRecord) :=
  match polygons with
  | [] => OK outputFileContent
  | poly :: rest =>
      r <- processPolygon gray currentFrame poly ;;
      polygonLoop gray currentFrame rest
        (match r with
         | Some row => outputFileContent ++ [row]
         | None => outputFileContent
         end)
  end.

(** [detectAndLabelMarkers] from [polygons] and the masked [gray] on: the
    rows appended to the log, or the exception that ends the call before
    the log is opened. *)
Definition detectAndLabelMarkers (gray : image) (currentFrame : Z)
    (polygons : list (list point)) : result (list OutputRecord) :=
  polygonLoop gray currentFrame polygons [].

End Detector.

Import Bresenham Detector.

(** ** The double precision expressions *)

Module Doubles.

(** The double of a small non-negative integer, and [int(f)] of a
    finite double: truncation towards zero. *)
Definition floatOfZ (z : Z) : float := PrimFloat.of_uint63 (Uint63.of_Z z).

Definition truncZ (f : float) : Z :=
  match Prim2SF f with
  | S754_finite s m e =>
      let v := if 0 <=? e then Z.pos m * 2 ^ e else Z.pos m / 2 ^ (- e) in
      if s then - v else v
  | _ => 0
  end.

(** [int(markerAxisLen / 10 * 1.95)], [int(tempIndex * 0.85)] and
    [int(tempIndex * 0.9)] as the source computes them. *)
Definition cycleJumpDouble (markerAxisLen : Z) : Z :=
  truncZ (floatOfZ markerAxisLen / 10 * 1.95)%float.

Definition scale85Double (tempIndex : Z) : Z :=
  truncZ (floatOfZ tempIndex * 0.85)%float.

Definition scale9Double (tempIndex : Z) : Z :=
  truncZ (floatOfZ tempIndex * 0.9)%float.

(** The three tests on [slope = dy / dx]. *)
Definition slopeTestsDouble (dx dy : Z) : bool * bool * bool :=
  let slope := (floatOfZ dy / floatOfZ dx)%float in
  (PrimFloat.ltb slope 1, PrimFloat.leb 1 slope, PrimFloat.ltb 1 slope).

(** [r ** 0.5 < 80.0], the power read as the square root. *)
Definition shortDouble (r : Z) : bool :=
  PrimFloat.ltb (PrimFloat.sqrt (floatOfZ r)) 80.

Definition upTo (n : Z) : list Z := map Z.of_nat (seq 0 (Z.to_nat n)).

End Doubles.

(** * Vocabulary of the statements *)

(** The loop state after [n] passes. *)
Fixpoint lineIter (n : nat) (dx dy xStep yStep : Z) (s : Z * Z * Z) : Z * Z * Z :=
  match n with
  | O => s
  | S n' => lineIter n' dx dy xStep yStep (lineStep dx dy xStep yStep s)
  end.

Definition emitOf (emit : Z -> Z -> point) (s : Z * Z * Z) : point :=
  let '(x, y, _) := s in emit x y.

(** The minor step of the steep loop. *)
Definition steepXStep (x0 y0 x1 y1 : Z) : Z :=
  if ((Z.abs (x1 - x0) <? Z.abs (y1 - y0)) && (x0 >? x1) && (y0 >? y1))
     || ((x0 >? x1) && (y0 <? y1))
  then -1 else 1.

(** Two pixels that touch by a side or by a corner (or coincide). *)
Definition adjacent8 (a b : point) : Prop :=
  Z.abs (fst b - fst a) <= 1 /\ Z.abs (snd b - snd a) <= 1.

(** Every two consecutive elements of a list are related. *)
Fixpoint chained {A : Type} (R : A -> A -> Prop) (l : list A) : Prop :=
  match l with
  | a :: (b :: _) as tl => R a b /\ chained R tl
  | _ => True
  end.

(** Vertex [i] of a polygon and its side [i], from vertex [i] to vertex
    [(i + 1) mod N]. *)
Definition vertexAt (poly : list point) (i : Z) : point :=
  nth (Z.to_nat i) poly (0, 0).

Definition sideOf (poly : list point) (i : Z) : point * point :=
  (vertexAt poly i, vertexAt poly ((i + 1) mod len poly)).

(** A side is short when its Euclidean length is below 80. *)
Definition isShort (e : point * point) : Prop :=
  (fst (snd e) - fst (fst e)) ^ 2 + (snd (snd e) - snd (fst e)) ^ 2 < 80 ^ 2.

Definition isEndpoint (pt : point) (e : point * point) : Prop :=
  pt = fst e \/ pt = snd e.

Definition shareEndpoint (e1 e2 : point * point) : Prop :=
  exists pt, isEndpoint pt e1 /\ isEndpoint pt e2.

Definition midpointOf (e : point * point) : point :=
  ((fst (fst e) + fst (snd e)) / 2, (snd (fst e) + snd (snd e)) / 2).

(** What the loop finds for the pair of sides [s] and [s2] of a polygon:
    a point they have in common, or nothing. *)
Definition examined (poly : list point) (s s2 : Z) : option point :=
  commonPoint (fst (sideOf poly s)) (snd (sideOf poly s))
              (fst (sideOf poly s2)) (snd (sideOf poly s2)).

(** A marker outline with three short sides, 0, 1 and 2: the sides 0 and
    1 meet in (100,100), side 2 runs from (100,170) to (100,230). *)
Definition notchedMarker : list point :=
  [(60, 70); (100, 100); (100, 170); (100, 230); (300, 150)].

(** An outline whose only short sides, 0 and 1, meet in (10,0). *)
Definition twoAdjacentShortSides : list point :=
  [(0, 0); (10, 0); (10, 10); (200, 200); (0, 200)].

(** Outlines with one short side (side 0) and with two (sides 0, 2). *)
Definition oneShortSide : list point :=
  [(0, 0); (10, 0); (200, 0); (200, 200); (0, 200)].

Definition twoShortSides : list point :=
  [(0, 0); (10, 0); (200, 0); (200, 10); (0, 200)].

(** An outline with no short side. *)
Definition wideOutline : list point :=
  [(0, 0); (200, 0); (300, 200); (100, 400); (-100, 200)].

(** A small marker: its axis runs from (100,100) to (100,102). *)
Definition tinyMarker : list point :=
  [(98, 99); (100, 100); (100, 101); (100, 103); (300, 150)].

(** A frame that is white in the rows before row 150 and dark from
    there on. *)
Definition halfBright : image :=
  {| rows := 2000; cols := 3000;
     pixel := fun r c => if r <? 150 then 255 else 0 |}.

(** ** Vocabulary of the ring decoder *)

(** A list of lookups, in order, stopping at the first that raises. *)
Fixpoint mapM {A B : Type} (f : A -> result B) (l : list A) : result (list B) :=
  match l with
  | [] => OK []
  | a :: l' => b <- f a ;; bs <- mapM f l' ;; OK (b :: bs)
  end.

(** The intensity at point [tempIndex] of the axis. *)
Definition lookupAt (gray : image) (markerAxis : list point) (tempIndex : Z)
    : result Z :=
  pt <- getitem markerAxis tempIndex ;;
  grayAt gray (snd pt) (fst pt).

(** The indices the loop looks up, from the sample centres and the value
    of [actCycle] the loop is entered with. *)
Fixpoint lookupIndices (centres : list Z) (actCycle : Z) : list Z :=
  match centres with
  | [] => []
  | c :: rest => warp actCycle c :: lookupIndices rest (actCycle + 1)
  end.

(** The bit of an intensity: 0 when it exceeds 180, else 1. *)
Definition bitOf (v : Z) : bool := negb (v >? 180).

Definition bitChar (b : bool) : ascii := if b then "1"%char else "0"%char.

Fixpoint bitString (bits : list bool) : string :=
  match bits with
  | [] => EmptyString
  | b :: rest => String (bitChar b) (bitString rest)
  end.

(** The number whose binary digits are [bits], least significant first. *)
Fixpoint lsbFirstValue (bits : list bool) : Z :=
  match bits with
  | [] => 0
  | b :: rest => (if b then 1 else 0) + 2 * lsbFirstValue rest
  end.

(** A point both of whose coordinates are valid indices of the image. *)
Definition inImage (gray : image) (pt : point) : Prop :=
  - rows gray <= snd pt < rows gray /\ - cols gray <= fst pt < cols gray.

(** The scale the statement of the warp correction gives to sample [k]. *)
Definition warpOfSample (k : nat) (c : Z) : Z :=
  match k with
  | 0%nat => c * 9 / 10
  | 1%nat | 2%nat | 3%nat | 4%nat => c * 85 / 100
  | _ => c
  end.

(** A vertical axis of ten points, and a frame that is white in row 5
    only. *)
Definition tenPointAxis : list point :=
  map (fun k => (0, Z.of_nat k)) (seq 0 10).

Definition rowFiveBright : image :=
  {| rows := 100; cols := 100;
     pixel := fun r c => if r =? 5 then 255 else 0 |}.

Definition fivePointAxis : list point :=
  map (fun k => (0, Z.of_nat k)) (seq 0 5).

(** The axis from (100,100) down to (100,200). *)
Definition verticalAxis : list point :=
  map (fun k => (100, 100 + Z.of_nat k)) (seq 0 101).

(** ** Vocabulary of the further properties *)

(** The rectangle spanned by two points. *)
Definition inBox (a b pt : point) : Prop :=
  Z.min (fst a) (fst b) <= fst pt <= Z.max (fst a) (fst b) /\
  Z.min (snd a) (snd b) <= snd pt <= Z.max (snd a) (snd b).

(** A point moved by [(a, b)]. *)
Definition shift (a b : Z) (pt : point) : point := (fst pt + a, snd pt + b).

(** The end points the rasterizer reaches: the line runs rightwards, or
    is steeper than the diagonal, or is the diagonal with [y0 < y1]. *)
Definition reachable (x0 y0 x1 y1 : Z) : Prop :=
  x0 <= x1 \/ Z.abs (x1 - x0) < Z.abs (y1 - y0)
  \/ (Z.abs (x1 - x0) = Z.abs (y1 - y0) /\ y0 < y1).

(** A point that is an index pair of the image without wrap-around. *)
Definition onFrame (gray : image) (pt : point) : Prop :=
  0 <= fst pt < cols gray /\ 0 <= snd pt < rows gray.

(** What every row of a frame satisfies. *)
Definition rowOf (currentFrame : Z) (polygons : list (list point))
    (row : OutputRecord) : Prop :=
  frameIndex row = currentFrame /\
  0 <= identifier row < 512 /\
  exists poly, In poly polygons /\ In (anchorX row, anchorY row) poly.

(** * Properties *)

(** ** The result monad *)

Lemma bind_OK {A B : Type} (m : result A) (k : A -> result B) (b : B) :
  bind m k = OK b -> exists a, m = OK a /\ k a = OK b.
Proof.
  destruct m as [a|e]; simpl; intros H; [exists a; auto | discriminate].
Qed.

Lemma OK_inj {A : Type} (a b : A) : OK a = OK b -> a = b.
Proof. intros H. injection H as H. exact H. Qed.

(** ** Slope tests *)

Section Slope.

Variables dx dy : Z.
Hypothesis dx_pos : 0 < dx.

Lemma slopeOf_pos : slopeOf dx dy = OK (Qmake dy (Z.to_pos dx)).
Proof.
  unfold slopeOf, truediv.
  destruct (Z.eqb_spec dx 0) as [E|_]; [lia|]. simpl.
  rewrite Z.sgn_pos, Z.abs_eq, Z.mul_1_l by lia. reflexivity.
Qed.

Lemma slope_lt_1 : Qlt_bool (Qmake dy (Z.to_pos dx)) 1 = (dy <? dx).
Proof.
  unfold Qlt_bool, Qle_bool. simpl. rewrite Z2Pos.id by lia.
  rewrite Z.mul_1_r. destruct (Z.leb_spec dx dy), (Z.ltb_spec dy dx); simpl; lia.
Qed.

Lemma slope_ge_1 : Qle_bool 1 (Qmake dy (Z.to_pos dx)) = (dx <=? dy).
Proof.
  unfold Qle_bool. simpl. rewrite Z2Pos.id by lia.
  rewrite Z.mul_1_r. reflexivity.
Qed.

Lemma slope_gt_1 : Qlt_bool 1 (Qmake dy (Z.to_pos dx)) = (dx <? dy).
Proof.
  unfold Qlt_bool, Qle_bool. simpl. rewrite Z2Pos.id by lia.
  rewrite Z.mul_1_r. destruct (Z.leb_spec dy dx), (Z.ltb_spec dx dy); simpl; lia.
Qed.

End Slope.

(** The slope is always computed: the division is never reached with a
    zero divisor. *)
Lemma slopeOf_total (dx dy : Z) : 0 <= dx -> exists q, slopeOf dx dy = OK q.
Proof.
  intros H. destruct (Z.eq_dec dx 0) as [->|N].
  - exists (10 # 1)%Q. reflexivity.
  - exists (Qmake dy (Z.to_pos dx)). apply slopeOf_pos. lia.
Qed.

(** ** The rasterizer loop *)

Lemma lineIter_S n dx dy xs ys s :
  lineIter (S n) dx dy xs ys s = lineStep dx dy xs ys (lineIter n dx dy xs ys s).
Proof.
  revert s. induction n as [|n IH]; intros s; [reflexivity|].
  change (lineIter (S (S n)) dx dy xs ys s)
    with (lineIter (S n) dx dy xs ys (lineStep dx dy xs ys s)).
  rewrite IH. reflexivity.
Qed.

Lemma lineLoop_length n dx dy xs ys emit s :
  List.length (lineLoop n dx dy xs ys emit s) = n.
Proof.
  revert s. induction n as [|n IH]; intros s; [reflexivity|].
  simpl. destruct (lineStep dx dy xs ys s) as [[x y] p] eqn:E.
  simpl. rewrite IH. reflexivity.
Qed.

Lemma lineLoop_last n dx dy xs ys emit s d :
  last (emitOf emit s :: lineLoop n dx dy xs ys emit s) d
  = emitOf emit (lineIter n dx dy xs ys s).
Proof.
  revert s. induction n as [|n IH]; intros s; [reflexivity|].
  change (lineIter (S n) dx dy xs ys s)
    with (lineIter n dx dy xs ys (lineStep dx dy xs ys s)).
  rewrite <- IH. simpl.
  destruct (lineStep dx dy xs ys s) as [[x y] p] eqn:E. reflexivity.
Qed.

Lemma lineStep_adjacent dx dy xs ys x y p :
  Z.abs xs <= 1 -> Z.abs ys <= 1 ->
  let '(x', y', _) := lineStep dx dy xs ys (x, y, p) in
  Z.abs (x' - x) <= 1 /\ Z.abs (y' - y) <= 1.
Proof.
  intros Hx Hy. unfold lineStep. destruct (0 <=? p); split; lia.
Qed.

Lemma lineLoop_chained n dx dy xs ys emit s :
  Z.abs xs <= 1 -> Z.abs ys <= 1 ->
  (forall x y x' y', Z.abs (x' - x) <= 1 -> Z.abs (y' - y) <= 1 ->
                     adjacent8 (emit x y) (emit x' y')) ->
  chained adjacent8 (emitOf emit s :: lineLoop n dx dy xs ys emit s).
Proof.
  intros Hx Hy Hemit. revert s. induction n as [|n IH]; intros s; [exact I|].
  specialize (IH (lineStep dx dy xs ys s)).
  destruct s as [[x y] p].
  pose proof (lineStep_adjacent dx dy xs ys x y p Hx Hy) as Hs.
  cbn [lineLoop].
  destruct (lineStep dx dy xs ys (x, y, p)) as [[x' y'] p'] eqn:E.
  split; [|exact IH].
  simpl. apply Hemit; tauto.
Qed.

(** The decision variable keeps the minor axis within half a step of the
    ideal line, so after [major] passes the minor coordinate has moved by
    exactly [minor]. *)
Lemma lineIter_invariant (k : nat) (minor major xs ys x y : Z) :
  0 <= minor <= major -> 0 < major -> Z.abs xs = 1 ->
  exists c,
    0 <= c /\
    lineIter k minor major xs ys (x, y, 2 * minor - major)
    = (x + xs * c, y + ys * Z.of_nat k,
       2 * minor - major + 2 * minor * Z.of_nat k - 2 * major * c) /\
    2 * minor - 2 * major
      <= 2 * minor - major + 2 * minor * Z.of_nat k - 2 * major * c
      < 2 * minor.
Proof.
  intros Hm HM Hxs. induction k as [|k IH].
  - exists 0. split; [lia|]. split; [|lia].
    simpl. f_equal; [f_equal|]; lia.
  - destruct IH as (c & Hc & E & Hp).
    rewrite lineIter_S, E. unfold lineStep.
    set (p := 2 * minor - major + 2 * minor * Z.of_nat k - 2 * major * c) in *.
    destruct (Z.leb_spec 0 p) as [Hge|Hlt].
    + exists (c + 1). split; [lia|].
      replace (x + xs * c + xs - (x + xs * c)) with xs by lia.
      rewrite Hxs. split; [f_equal; [f_equal|]; lia | lia].
    + exists c. split; [lia|].
      replace (x + xs * c - (x + xs * c)) with 0 by lia.
      split; [f_equal; [f_equal|]; simpl Z.abs; lia | simpl Z.abs; lia].
Qed.

Lemma lineIter_end (n : nat) (minor major xs ys x y : Z) :
  0 <= minor <= major -> major = Z.of_nat n -> Z.abs xs = 1 ->
  exists p, lineIter n minor major xs ys (x, y, 2 * minor - major)
            = (x + xs * minor, y + ys * major, p).
Proof.
  intros Hm HM Hxs. destruct n as [|n].
  - simpl in HM. subst major. assert (minor = 0) by lia. subst minor.
    eexists. simpl. f_equal. f_equal; lia.
  - destruct (lineIter_invariant (S n) minor major xs ys x y Hm ltac:(lia) Hxs)
      as (c & Hc & E & Hp).
    assert (c = minor) by nia. subst c.
    rewrite E, <- HM. eexists. reflexivity.
Qed.

(** ** bresenhamLineGenerator, both slope regimes *)

Lemma bresenham_shallow x0 y0 x1 y1 :
  Z.abs (y1 - y0) < Z.abs (x1 - x0) ->
  bresenhamLineGenerator x0 y0 x1 y1
  = OK ((x0, y0) ::
        lineLoop (Z.to_nat (Z.abs (x1 - x0))) (Z.abs (y1 - y0)) (Z.abs (x1 - x0))
          (if (x0 >? x1) || (y0 >? y1) then -1 else 1) 1
          (fun x y => (y, x)) (y0, x0, 2 * Z.abs (y1 - y0) - Z.abs (x1 - x0))).
Proof.
  intros H. unfold bresenhamLineGenerator.
  rewrite slopeOf_pos by lia. cbn [bind].
  rewrite slope_lt_1, slope_ge_1, slope_gt_1 by lia.
  destruct (Z.ltb_spec (Z.abs (y1 - y0)) (Z.abs (x1 - x0))) as [_|]; [|lia].
  destruct (Z.leb_spec (Z.abs (x1 - x0)) (Z.abs (y1 - y0))) as [|_]; [lia|].
  destruct (Z.ltb_spec (Z.abs (x1 - x0)) (Z.abs (y1 - y0))) as [|_]; [lia|].
  cbn [andb orb app].
  destruct (x0 >? x1), (y0 >? y1), (y0 <? y1); reflexivity.
Qed.

Lemma bresenham_steep x0 y0 x1 y1 :
  Z.abs (x1 - x0) <= Z.abs (y1 - y0) ->
  bresenhamLineGenerator x0 y0 x1 y1
  = OK ((x0, y0) ::
        lineLoop (Z.to_nat (Z.abs (y1 - y0))) (Z.abs (x1 - x0)) (Z.abs (y1 - y0))
          (steepXStep x0 y0 x1 y1) (if y0 >? y1 then -1 else 1)
          (fun x y => (x, y)) (x0, y0, 2 * Z.abs (x1 - x0) - Z.abs (y1 - y0))).
Proof.
  intros H. unfold bresenhamLineGenerator, steepXStep.
  destruct (Z.eq_dec (Z.abs (x1 - x0)) 0) as [E0|N0].
  - assert (Hx : (x0 >? x1) = false) by lia.
    rewrite E0, Hx. cbn.
    destruct (0 <? Z.abs (y1 - y0)), (y0 >? y1); reflexivity.
  - rewrite slopeOf_pos by lia. cbn [bind].
    rewrite slope_lt_1, slope_ge_1, slope_gt_1 by lia.
    destruct (Z.ltb_spec (Z.abs (y1 - y0)) (Z.abs (x1 - x0))) as [|_]; [lia|].
    destruct (Z.leb_spec (Z.abs (x1 - x0)) (Z.abs (y1 - y0))) as [_|]; [|lia].
    cbn [andb orb app]. rewrite andb_false_r. reflexivity.
Qed.

(** The two regimes cover every input: the generator returns a list for
    every pair of end points. *)
Lemma bresenham_total x0 y0 x1 y1 :
  exists l, bresenhamLineGenerator x0 y0 x1 y1 = OK l.
Proof.
  destruct (Z.lt_ge_cases (Z.abs (y1 - y0)) (Z.abs (x1 - x0))) as [H|H].
  - rewrite bresenham_shallow by exact H. eexists. reflexivity.
  - rewrite bresenham_steep by exact H. eexists. reflexivity.
Qed.

Lemma bresenham_shape (x0 y0 x1 y1 : Z) :
  exists rest : list point,
    bresenhamLineGenerator x0 y0 x1 y1 = OK (((x0, y0) : point) :: rest) /\
    List.length rest
    = Z.to_nat (Z.max (Z.abs (x1 - x0)) (Z.abs (y1 - y0))).
Proof.
  destruct (Z.lt_ge_cases (Z.abs (y1 - y0)) (Z.abs (x1 - x0))) as [H|H].
  - rewrite bresenham_shallow by exact H. eexists. split; [reflexivity|].
    rewrite lineLoop_length. f_equal. lia.
  - rewrite bresenham_steep by exact H. eexists. split; [reflexivity|].
    rewrite lineLoop_length. f_equal. lia.
Qed.

(** C7: for all integer end points the returned sequence begins with
    [(x0, y0)] and has exactly [max(|x1 - x0|, |y1 - y0|) + 1] points. *)
Theorem bresenham_start_and_length (x0 y0 x1 y1 : Z) :
  exists rest,
    bresenhamLineGenerator x0 y0 x1 y1 = OK ((x0, y0) :: rest) /\
    len ((x0, y0) :: rest) = Z.max (Z.abs (x1 - x0)) (Z.abs (y1 - y0)) + 1.
Proof.
  destruct (bresenham_shape x0 y0 x1 y1) as (rest & E & Hlen).
  exists rest. split; [exact E|].
  unfold len, point in *. cbn [List.length]. rewrite Hlen. lia.
Qed.

(** Consecutive points of the returned sequence touch, for all inputs. *)
Lemma bresenham_8_connected x0 y0 x1 y1 l :
  bresenhamLineGenerator x0 y0 x1 y1 = OK l -> chained adjacent8 l.
Proof.
  destruct (Z.lt_ge_cases (Z.abs (y1 - y0)) (Z.abs (x1 - x0))) as [H|H].
  - rewrite bresenham_shallow by exact H. intros E; apply OK_inj in E; subst l.
    apply (lineLoop_chained _ _ _ _ _ (fun x y => (y, x)) (y0, x0, _)).
    + destruct ((x0 >? x1) || (y0 >? y1)); simpl; lia.
    + simpl; lia.
    + intros; split; simpl; assumption.
  - rewrite bresenham_steep by exact H. intros E; apply OK_inj in E; subst l.
    apply (lineLoop_chained _ _ _ _ _ (fun x y => (x, y)) (x0, y0, _)).
    + unfold steepXStep. destruct (_ || _); simpl; lia.
    + destruct (y0 >? y1); simpl; lia.
    + intros; split; simpl; assumption.
Qed.

(** Where the sequence ends, in each regime. *)
Lemma bresenham_shallow_last x0 y0 x1 y1 l :
  Z.abs (y1 - y0) < Z.abs (x1 - x0) ->
  bresenhamLineGenerator x0 y0 x1 y1 = OK l ->
  last l (x0, y0)
  = (x0 + Z.abs (x1 - x0),
     y0 + (if (x0 >? x1) || (y0 >? y1) then -1 else 1) * Z.abs (y1 - y0)).
Proof.
  intros H. rewrite bresenham_shallow by exact H. intros E; apply OK_inj in E; subst l.
  pose proof (lineLoop_last (Z.to_nat (Z.abs (x1 - x0))) (Z.abs (y1 - y0))
                (Z.abs (x1 - x0)) (if (x0 >? x1) || (y0 >? y1) then -1 else 1) 1
                (fun x y => (y, x))
                (y0, x0, 2 * Z.abs (y1 - y0) - Z.abs (x1 - x0)) (x0, y0)) as L.
  cbn [emitOf] in L. refine (eq_trans L _). clear L.
  destruct (lineIter_end (Z.to_nat (Z.abs (x1 - x0))) (Z.abs (y1 - y0))
              (Z.abs (x1 - x0)) (if (x0 >? x1) || (y0 >? y1) then -1 else 1) 1
              y0 x0) as [p E].
  - lia.
  - lia.
  - destruct (_ || _); reflexivity.
  - rewrite E. cbn [emitOf]. f_equal; lia.
Qed.

Lemma bresenham_steep_last x0 y0 x1 y1 l :
  Z.abs (x1 - x0) <= Z.abs (y1 - y0) ->
  bresenhamLineGenerator x0 y0 x1 y1 = OK l ->
  last l (x0, y0)
  = (x0 + steepXStep x0 y0 x1 y1 * Z.abs (x1 - x0), y1).
Proof.
  intros H. rewrite bresenham_steep by exact H. intros E; apply OK_inj in E; subst l.
  pose proof (lineLoop_last (Z.to_nat (Z.abs (y1 - y0))) (Z.abs (x1 - x0))
                (Z.abs (y1 - y0)) (steepXStep x0 y0 x1 y1)
                (if y0 >? y1 then -1 else 1) (fun x y => (x, y))
                (x0, y0, 2 * Z.abs (x1 - x0) - Z.abs (y1 - y0)) (x0, y0)) as L.
  cbn [emitOf] in L. refine (eq_trans L _). clear L.
  destruct (lineIter_end (Z.to_nat (Z.abs (y1 - y0))) (Z.abs (x1 - x0))
              (Z.abs (y1 - y0)) (steepXStep x0 y0 x1 y1)
              (if y0 >? y1 then -1 else 1) x0 y0) as [p E].
  - lia.
  - lia.
  - unfold steepXStep. destruct (_ || _); reflexivity.
  - rewrite E. cbn [emitOf]. f_equal.
    destruct (Z.gtb_spec y0 y1); lia.
Qed.

(** The end point is reached when the line runs rightwards, or is steeper
    than the diagonal, or is the diagonal that runs down in [y]. *)
Lemma bresenham_end_reached x0 y0 x1 y1 l :
  x0 <= x1 \/ Z.abs (x1 - x0) < Z.abs (y1 - y0)
  \/ (Z.abs (x1 - x0) = Z.abs (y1 - y0) /\ y0 < y1) ->
  bresenhamLineGenerator x0 y0 x1 y1 = OK l ->
  last l (x0, y0) = (x1, y1).
Proof.
  intros D E.
  destruct (Z.lt_ge_cases (Z.abs (y1 - y0)) (Z.abs (x1 - x0))) as [H|H].
  - rewrite (bresenham_shallow_last _ _ _ _ _ H E).
    assert (Hx : x0 < x1) by lia.
    destruct (Z.gtb_spec x0 x1); [lia|].
    destruct (Z.gtb_spec y0 y1); cbn [orb]; f_equal; lia.
  - rewrite (bresenham_steep_last _ _ _ _ _ H E). f_equal.
    unfold steepXStep.
    destruct (Z.ltb_spec (Z.abs (x1 - x0)) (Z.abs (y1 - y0)));
    destruct (Z.gtb_spec x0 x1); destruct (Z.gtb_spec y0 y1);
    destruct (Z.ltb_spec y0 y1); cbn [andb orb]; lia.
Qed.

(** A shallow line that runs leftwards is drawn rightwards: the dominant
    step of the shallow regime is always [+1]. *)
Lemma bresenham_shallow_leftwards_end x0 y0 x1 y1 l :
  x1 < x0 -> Z.abs (y1 - y0) < x0 - x1 ->
  bresenhamLineGenerator x0 y0 x1 y1 = OK l ->
  last l (x0, y0) = (x0 + (x0 - x1), y0 - Z.abs (y1 - y0)).
Proof.
  intros Hx H E.
  rewrite (bresenham_shallow_last x0 y0 x1 y1 l ltac:(lia) E).
  destruct (Z.gtb_spec x0 x1); [|lia]. cbn [orb]. f_equal; lia.
Qed.

(** The diagonal that runs leftwards and up in the image is drawn with
    [x] growing. *)
Lemma bresenham_diagonal_end x0 y0 d l :
  0 < d ->
  bresenhamLineGenerator x0 y0 (x0 - d) (y0 - d) = OK l ->
  last l (x0, y0) = (x0 + d, y0 - d).
Proof.
  intros Hd E.
  rewrite (bresenham_steep_last x0 y0 (x0 - d) (y0 - d) l ltac:(lia) E).
  unfold steepXStep.
  destruct (Z.ltb_spec (Z.abs (x0 - d - x0)) (Z.abs (y0 - d - y0))); [lia|].
  destruct (Z.ltb_spec y0 (y0 - d)); [lia|].
  rewrite andb_false_r. cbn [andb orb]. f_equal; lia.
Qed.

(** C1: the sequence returned for the diagonal from (3,3) to (0,0) is
    8-connected but runs to (6,0), and the one for the horizontal from
    (5,0) to (0,0) runs to (10,0): the last point is not the end point of
    the call. *)
Theorem bresenham_misses_end :
  bresenhamLineGenerator 3 3 0 0 = OK [(3, 3); (4, 2); (5, 1); (6, 0)]
  /\ chained adjacent8 [(3, 3); (4, 2); (5, 1); (6, 0)]
  /\ last [(3, 3); (4, 2); (5, 1); (6, 0)] (3, 3) <> (0, 0)
  /\ bresenhamLineGenerator 5 0 0 0
     = OK [(5, 0); (6, 0); (7, 0); (8, 0); (9, 0); (10, 0)].
Proof.
  split; [reflexivity|]. split; [|split].
  - apply (bresenham_8_connected 3 3 0 0). reflexivity.
  - cbn. intros [=].
  - reflexivity.
Qed.

(** With no minor extent the decision variable stays negative and the
    loop walks the dominant axis only. *)
Lemma lineLoop_straight (n j : nat) (major xs ys x y p : Z) :
  0 <= major -> p < 0 ->
  lineLoop n 0 major xs ys (fun a b => (a, b)) (x, y + ys * Z.of_nat j, p)
  = map (fun k => (x, y + ys * Z.of_nat k)) (seq (S j) n).
Proof.
  intros HM Hp. revert j. induction n as [|n IH]; intros j; [reflexivity|].
  cbn [lineLoop lineStep seq map].
  destruct (Z.leb_spec 0 p) as [|_]; [lia|].
  replace (p + 2 * 0 - 2 * major * Z.abs (x - x)) with p
    by (rewrite Z.sub_diag; simpl Z.abs; lia).
  replace (y + ys * Z.of_nat j + ys) with (y + ys * Z.of_nat (S j)) by lia.
  rewrite IH. reflexivity.
Qed.

(** C8: with [x0 = x1] the slope is the constant 10 and no division is
    made, the steep loop runs, and the result is the vertical run of
    [|y1 - y0| + 1] points from [(x0, y0)] towards [(x0, y1)]. *)
Theorem bresenham_vertical (x0 y0 y1 : Z) :
  slopeOf (Z.abs (x0 - x0)) (Z.abs (y1 - y0)) = OK (10 # 1)%Q /\
  Qlt_bool (10 # 1)%Q 1 = false /\
  exists l,
    bresenhamLineGenerator x0 y0 x0 y1 = OK l /\
    len l = Z.abs (y1 - y0) + 1 /\
    Forall (fun pt => fst pt = x0) l /\
    l = map (fun k => (x0, y0 + Z.sgn (y1 - y0) * Z.of_nat k))
            (seq 0 (S (Z.to_nat (Z.abs (y1 - y0))))).
Proof.
  split; [rewrite Z.sub_diag; reflexivity|].
  split; [reflexivity|].
  assert (R : bresenhamLineGenerator x0 y0 x0 y1
              = OK (map (fun k => (x0, y0 + Z.sgn (y1 - y0) * Z.of_nat k))
                        (seq 0 (S (Z.to_nat (Z.abs (y1 - y0))))))).
  { rewrite bresenham_steep by (rewrite Z.sub_diag; simpl Z.abs; lia).
    unfold steepXStep. rewrite Z.sub_diag. simpl (Z.abs 0).
    f_equal. cbn [seq map]. f_equal; [f_equal; lia|].
    destruct (Z.eq_dec y1 y0) as [->|N].
    - rewrite Z.sub_diag. reflexivity.
    - pose proof (lineLoop_straight (Z.to_nat (Z.abs (y1 - y0))) 0
                    (Z.abs (y1 - y0)) 1 (Z.sgn (y1 - y0)) x0 y0
                    (2 * 0 - Z.abs (y1 - y0)) ltac:(lia) ltac:(lia)) as L.
      rewrite <- L.
      replace (if y0 >? y1 then -1 else 1) with (Z.sgn (y1 - y0))
        by (destruct (Z.gtb_spec y0 y1); lia).
      replace (if _ || _ then -1 else 1) with 1
        by (destruct (Z.gtb_spec x0 x0); [lia|]; rewrite andb_false_r; reflexivity).
      replace (y0 + Z.sgn (y1 - y0) * Z.of_nat 0) with y0 by lia.
      reflexivity. }
  eexists. split; [exact R|]. split; [|split; [|reflexivity]].
  - unfold len. rewrite length_map, length_seq. lia.
  - apply Forall_forall. intros pt Hin. apply in_map_iff in Hin.
    destruct Hin as (k & <- & _). reflexivity.
Qed.

(** ** The corner resolver on a pentagon *)

Lemma pointEq_true a b : pointEq a b = true <-> a = b.
Proof.
  unfold pointEq. destruct a as [ax ay], b as [bx by']. simpl.
  rewrite andb_true_iff, !Z.eqb_eq. split; [intros [-> ->]; reflexivity|].
  intros [= -> ->]. split; reflexivity.
Qed.

Lemma commonPoint_Some a1 b1 a2 b2 c :
  commonPoint a1 b1 a2 b2 = Some c ->
  isEndpoint c (a1, b1) /\ isEndpoint c (a2, b2).
Proof.
  unfold commonPoint, isEndpoint. cbn [fst snd].
  destruct (pointEq a1 a2) eqn:E1; [apply pointEq_true in E1; intros [= <-]; auto|].
  destruct (pointEq a1 b2) eqn:E2; [apply pointEq_true in E2; intros [= <-]; auto|].
  cbn [orb].
  destruct (pointEq b1 a2) eqn:E3; [apply pointEq_true in E3; intros [= <-]; auto|].
  destruct (pointEq b1 b2) eqn:E4; [apply pointEq_true in E4; intros [= <-]; auto|].
  discriminate.
Qed.

Lemma commonPoint_None a1 b1 a2 b2 :
  commonPoint a1 b1 a2 b2 = None <-> ~ shareEndpoint (a1, b1) (a2, b2).
Proof.
  unfold commonPoint, shareEndpoint, isEndpoint. cbn [fst snd].
  destruct (pointEq a1 a2) eqn:E1.
  { apply pointEq_true in E1. split; [discriminate|]. intros N. destruct N. eauto. }
  destruct (pointEq a1 b2) eqn:E2.
  { apply pointEq_true in E2. split; [discriminate|]. intros N. destruct N. eauto. }
  cbn [orb].
  destruct (pointEq b1 a2) eqn:E3.
  { apply pointEq_true in E3. split; [discriminate|]. intros N. destruct N. eauto. }
  destruct (pointEq b1 b2) eqn:E4.
  { apply pointEq_true in E4. split; [discriminate|]. intros N. destruct N. eauto. }
  split; [|reflexivity]. intros _ (pt & [H1|H1] & [H2|H2]); subst pt.
  - apply pointEq_true in H2. congruence.
  - apply pointEq_true in H2. congruence.
  - apply pointEq_true in H2. congruence.
  - apply pointEq_true in H2. congruence.
Qed.

Lemma getitem_nth_error {A : Type} (l : list A) (i : Z) (a : A) :
  getitem l i = OK a <-> 0 <= i /\ nth_error l (Z.to_nat i) = Some a.
Proof.
  unfold getitem. destruct (Z.ltb_spec i 0).
  - split; [discriminate | lia].
  - destruct (nth_error l (Z.to_nat i)) as [b|].
    + split; [intros [= ->]; auto | intros [_ [= ->]]; reflexivity].
    + split; [discriminate | intros [_ [=]]].
Qed.

Lemma getitem_bound {A : Type} (l : list A) (i : Z) (a : A) :
  getitem l i = OK a -> 0 <= i < len l.
Proof.
  intros H. apply getitem_nth_error in H. destruct H as [H0 H].
  assert (nth_error l (Z.to_nat i) <> None) as N by congruence.
  apply nth_error_Some in N. unfold len. lia.
Qed.

Lemma getitem_In {A : Type} (l : list A) (i : Z) (a : A) :
  getitem l i = OK a -> In a l.
Proof.
  intros H. apply getitem_nth_error in H. destruct H as [_ H].
  eapply nth_error_In; eassumption.
Qed.

Lemma getitem_beyond {A : Type} (l : list A) (i : Z) :
  len l <= i -> getitem l i = Raise IndexError.
Proof.
  intros H. unfold getitem, len in *.
  destruct (Z.ltb_spec i 0); [reflexivity|].
  destruct (nth_error l (Z.to_nat i)) eqn:E; [|reflexivity].
  assert (nth_error l (Z.to_nat i) <> None) as N by congruence.
  apply nth_error_Some in N. lia.
Qed.

Lemma getitem_within {A : Type} (l : list A) (i : Z) :
  0 <= i < len l -> exists a, getitem l i = OK a.
Proof.
  intros H. unfold getitem, len in *.
  destruct (Z.ltb_spec i 0); [lia|].
  destruct (nth_error l (Z.to_nat i)) eqn:E; [eauto|].
  apply nth_error_None in E. lia.
Qed.

Lemma short_list_inv {A : Type} (l : list A) :
  1 <= len l <= 2 -> (exists a, l = [a]) \/ (exists a b, l = [a; b]).
Proof.
  unfold len. intros H.
  destruct l as [|a [|b [|c l]]]; simpl in H; try lia; eauto.
Qed.

Section Pentagon.

Variables v0 v1 v2 v3 v4 : point.

Let poly : list point := [v0; v1; v2; v3; v4].

Lemma getitem_poly (i : Z) :
  0 <= i < 5 -> getitem poly i = OK (vertexAt poly i).
Proof.
  intros H.
  assert (i = 0 \/ i = 1 \/ i = 2 \/ i = 3 \/ i = 4) as D by lia.
  destruct D as [->|[->|[->|[->| ->]]]]; reflexivity.
Qed.

Lemma matchingSides_pentagon :
  matchingSidesOf poly
  = OK (filter (fun i => root_ltb (computeDistance (vertexAt poly i)
                                     (vertexAt poly ((i + 1) mod 5))) 80)
               [0; 1; 2; 3; 4]).
Proof. reflexivity. Qed.

Lemma matchingSides_range (ms : list Z) :
  matchingSidesOf poly = OK ms -> forall a, In a ms -> 0 <= a < 5.
Proof.
  rewrite matchingSides_pentagon. intros E a Hin.
  apply OK_inj in E. subst ms. apply filter_In in Hin.
  destruct Hin as [Hin _]. simpl in Hin. lia.
Qed.

Section Loop.

Context {M : Type}.
Variable marker : point -> point -> result M.
Variable ms : list Z.
Hypothesis ms_range : forall a, In a ms -> 0 <= a < 5.

Lemma cornerLoop_examine (i s s2 : Z) (rest : list (Z * Z)) :
  0 <= s < 5 ->
  getitem ms ((i + 1) mod 3) = OK s2 ->
  cornerLoop marker poly 5 ms ((i, s) :: rest)
  = match examined poly s s2 with
    | Some c =>
        third <- getitem ms ((i + 2) mod 3) ;;
        lowerSide0 <- getitem poly third ;;
        lowerSide1 <- getitem poly ((third + 1) mod 5) ;;
        m <- marker c ((fst lowerSide0 + fst lowerSide1) / 2,
                       (snd lowerSide0 + snd lowerSide1) / 2) ;;
        OK (Some m)
    | None => cornerLoop marker poly 5 ms rest
    end.
Proof.
  intros Hs H2.
  assert (0 <= s2 < 5) as Hs2 by (apply ms_range; eapply getitem_In; eassumption).
  cbn [cornerLoop].
  rewrite (getitem_poly s Hs).
  rewrite (getitem_poly ((s + 1) mod 5)) by (apply Z.mod_pos_bound; lia).
  rewrite H2. cbn [bind].
  rewrite (getitem_poly s2 Hs2).
  rewrite (getitem_poly ((s2 + 1) mod 5)) by (apply Z.mod_pos_bound; lia).
  cbn [bind]. reflexivity.
Qed.

Lemma cornerLoop_match (i s s2 s3 : Z) (c : point) (rest : list (Z * Z)) :
  0 <= s < 5 ->
  getitem ms ((i + 1) mod 3) = OK s2 ->
  getitem ms ((i + 2) mod 3) = OK s3 ->
  examined poly s s2 = Some c ->
  cornerLoop marker poly 5 ms ((i, s) :: rest)
  = (m <- marker c (midpointOf (sideOf poly s3)) ;; OK (Some m)).
Proof.
  intros Hs H2 H3 E.
  assert (0 <= s3 < 5) as Hs3 by (apply ms_range; eapply getitem_In; eassumption).
  rewrite (cornerLoop_examine i s s2 rest Hs H2), E, H3. cbn [bind].
  rewrite (getitem_poly s3 Hs3).
  rewrite (getitem_poly ((s3 + 1) mod 5)) by (apply Z.mod_pos_bound; lia).
  cbn [bind]. reflexivity.
Qed.

(** Items whose pair has no common point are passed over. *)
Lemma cornerLoop_skip (l : list Z) (k : nat) (start : Z) :
  (forall a, In a l -> In a ms) ->
  (forall (j : nat) a, (j < k)%nat -> nth_error l j = Some a ->
     exists b, getitem ms ((start + Z.of_nat j + 1) mod 3) = OK b
               /\ examined poly a b = None) ->
  cornerLoop marker poly 5 ms (enumerateFrom start l)
  = cornerLoop marker poly 5 ms
      (enumerateFrom (start + Z.of_nat k) (skipn k l)).
Proof.
  revert l start. induction k as [|k IH]; intros l start Hin Hno.
  - rewrite Z.add_0_r. reflexivity.
  - destruct l as [|a l]; [reflexivity|].
    destruct (Hno 0%nat a ltac:(lia) eq_refl) as (b & Hb & Eb).
    rewrite Z.add_0_r in Hb.
    cbn [enumerateFrom skipn].
    rewrite (cornerLoop_examine start a b _
               (ms_range a (Hin a (or_introl eq_refl))) Hb), Eb.
    rewrite (IH l (start + 1)).
    + replace (start + 1 + Z.of_nat k) with (start + Z.of_nat (S k)) by lia.
      reflexivity.
    + intros x Hx. apply Hin. right. exact Hx.
    + intros j x Hj Hx. destruct (Hno (S j) x ltac:(lia) Hx) as (y & Hy & Ey).
      exists y. split; [|exact Ey].
      replace (start + 1 + Z.of_nat j + 1) with (start + Z.of_nat (S j) + 1) by lia.
      exact Hy.
Qed.

(** The first item whose pair has a common point decides the result. *)
Lemma cornerLoop_first_match (k : nat) (s1 s2 s3 : Z) (c : point) :
  nth_error ms k = Some s1 ->
  getitem ms ((Z.of_nat k + 1) mod 3) = OK s2 ->
  getitem ms ((Z.of_nat k + 2) mod 3) = OK s3 ->
  examined poly s1 s2 = Some c ->
  (forall (j : nat) a, (j < k)%nat -> nth_error ms j = Some a ->
     exists b, getitem ms ((Z.of_nat j + 1) mod 3) = OK b
               /\ examined poly a b = None) ->
  cornerLoop marker poly 5 ms (enumerate ms)
  = (m <- marker c (midpointOf (sideOf poly s3)) ;; OK (Some m)).
Proof.
  intros H1 H2 H3 E Hno. unfold enumerate.
  rewrite (cornerLoop_skip ms k 0 (fun a H => H)).
  - assert (skipn k ms = s1 :: skipn (S k) ms) as Sk.
    { clear - H1. revert ms H1. induction k as [|k IH]; intros l H1.
      - destruct l; [discriminate|]. simpl in H1. injection H1 as ->. reflexivity.
      - destruct l; [discriminate|]. simpl in H1. apply (IH l H1). }
    rewrite Sk. cbn [enumerateFrom].
    apply (cornerLoop_match _ s1 s2 s3 c).
    + apply ms_range. eapply nth_error_In. eassumption.
    + exact H2.
    + exact H3.
    + exact E.
  - intros j a Hj Ha. destruct (Hno j a Hj Ha) as (b & Hb & Eb).
    exists b. split; [exact Hb | exact Eb].
Qed.

(** With one or two short sides the loop runs out of the list: index
    [(loopIndex + 1) mod 3] or [(loopIndex + 2) mod 3] is beyond it. *)
Lemma cornerLoop_too_few :
  1 <= len ms <= 2 ->
  cornerLoop marker poly 5 ms (enumerate ms) = Raise IndexError.
Proof.
  intros Hlen.
  destruct (short_list_inv ms Hlen) as [[a E] | (a & b & E)].
  - assert (enumerate ms = [(0, a)]) as -> by (rewrite E; reflexivity).
    assert (getitem ms ((0 + 1) mod 3) = Raise IndexError) as G
      by (rewrite E; reflexivity).
    cbn [cornerLoop].
    rewrite (getitem_poly a) by (apply ms_range; rewrite E; left; reflexivity).
    rewrite (getitem_poly ((a + 1) mod 5)) by (apply Z.mod_pos_bound; lia).
    rewrite G. reflexivity.
  - assert (enumerate ms = [(0, a); (1, b)]) as -> by (rewrite E; reflexivity).
    assert (getitem ms ((0 + 1) mod 3) = OK b) as G1 by (rewrite E; reflexivity).
    assert (getitem ms ((0 + 2) mod 3) = Raise IndexError) as G2
      by (rewrite E; reflexivity).
    assert (getitem ms ((1 + 1) mod 3) = Raise IndexError) as G3
      by (rewrite E; reflexivity).
    assert (0 <= a < 5) as Ra by (apply ms_range; rewrite E; left; reflexivity).
    assert (0 <= b < 5) as Rb
      by (apply ms_range; rewrite E; right; left; reflexivity).
    rewrite (cornerLoop_examine 0 a b _ Ra G1).
    destruct (examined poly a b); [rewrite G2; reflexivity|].
    cbn [cornerLoop].
    rewrite (getitem_poly b Rb).
    rewrite (getitem_poly ((b + 1) mod 5)) by (apply Z.mod_pos_bound; lia).
    rewrite G3. reflexivity.
Qed.

Lemma examined_adjacent (s s2 : Z) :
  0 <= s < 5 -> 0 <= s2 < 5 -> s2 = (s + 1) mod 5 -> examined poly s s2 <> None.
Proof.
  intros Hs Hs2 E. unfold examined, commonPoint, sideOf. cbn [fst snd].
  change (len poly) with 5.
  destruct (_ || _); [discriminate|].
  rewrite <- E.
  assert (pointEq (vertexAt poly s2) (vertexAt poly s2) = true) as R
    by (apply pointEq_true; reflexivity).
  rewrite R. discriminate.
Qed.

End Loop.

(** Of three sides of a pentagon two are neighbours, so with three or
    more short sides one of the first three items has a common point. *)
Lemma cornerLoop_three (ms : list Z) (m0 m1 m2 : Z) (l : list Z) :
  (forall a, In a ms -> 0 <= a < 5) ->
  ms = m0 :: m1 :: m2 :: l ->
  m0 < m1 < m2 ->
  exists c s3,
    In s3 ms /\
    forall (M : Type) (marker : point -> point -> result M),
      cornerLoop marker poly 5 ms (enumerate ms)
      = (m <- marker c (midpointOf (sideOf poly s3)) ;; OK (Some m)).
Proof.
  intros ms_range Ems Hlt.
  assert (0 <= m0 < 5) as R0 by (apply ms_range; rewrite Ems; simpl; auto).
  assert (0 <= m1 < 5) as R1 by (apply ms_range; rewrite Ems; simpl; auto).
  assert (0 <= m2 < 5) as R2 by (apply ms_range; rewrite Ems; simpl; auto).
  assert (G0 : getitem ms 0 = OK m0) by (rewrite Ems; reflexivity).
  assert (G1 : getitem ms 1 = OK m1) by (rewrite Ems; reflexivity).
  assert (G2 : getitem ms 2 = OK m2) by (rewrite Ems; reflexivity).
  destruct (examined poly m0 m1) as [c|] eqn:E0.
  { exists c, m2. split; [rewrite Ems; simpl; auto|]. intros M marker.
    apply (cornerLoop_first_match marker ms ms_range 0 m0 m1 m2 c);
      [rewrite Ems; reflexivity | exact G1 | exact G2 | exact E0 |].
    intros j a Hj. lia. }
  destruct (examined poly m1 m2) as [c|] eqn:E1.
  { exists c, m0. split; [rewrite Ems; simpl; auto|]. intros M marker.
    apply (cornerLoop_first_match marker ms ms_range 1 m1 m2 m0 c);
      [rewrite Ems; reflexivity | exact G2 | exact G0 | exact E1 |].
    intros j a Hj Ha. assert (j = 0%nat) by lia. subst j.
    rewrite Ems in Ha. injection Ha as <-.
    exists m1. split; [exact G1 | exact E0]. }
  destruct (examined poly m2 m0) as [c|] eqn:E2.
  { exists c, m1. split; [rewrite Ems; simpl; auto|]. intros M marker.
    apply (cornerLoop_first_match marker ms ms_range 2 m2 m0 m1 c);
      [rewrite Ems; reflexivity | exact G0 | exact G1 | exact E2 |].
    intros j a Hj Ha.
    assert (j = 0%nat \/ j = 1%nat) as [-> | ->] by lia;
      rewrite Ems in Ha; injection Ha as <-.
    - exists m1. split; [exact G1 | exact E0].
    - exists m2. split; [exact G2 | exact E1]. }
  exfalso.
  assert (m1 = (m0 + 1) mod 5 \/ m2 = (m1 + 1) mod 5 \/ m0 = (m2 + 1) mod 5)
    as [A | [A | A]]
    by (Z.to_euclidean_division_equations; lia).
  - exact (examined_adjacent m0 m1 R0 R1 A E0).
  - exact (examined_adjacent m1 m2 R1 R2 A E1).
  - exact (examined_adjacent m2 m0 R2 R0 A E2).
Qed.

End Pentagon.

Lemma pentagon_inv (poly : list point) :
  len poly = 5 -> exists v0 v1 v2 v3 v4, poly = [v0; v1; v2; v3; v4].
Proof.
  unfold len. intros H.
  destruct poly as [|v0 [|v1 [|v2 [|v3 [|v4 [|v5 l]]]]]]; simpl in H; try lia.
  exists v0, v1, v2, v3, v4. reflexivity.
Qed.

Lemma root_ltb_short (a b : point) :
  root_ltb (computeDistance a b) 80 = true <-> isShort (a, b).
Proof.
  unfold root_ltb, computeDistance, isShort. cbn [fst snd].
  rewrite Z.ltb_lt. change (80 * 80) with 6400. change (80 ^ 2) with 6400.
  reflexivity.
Qed.

(** The short sides are listed by increasing index. *)
Lemma matchingSides_spec (poly : list point) :
  len poly = 5 ->
  exists ms,
    matchingSidesOf poly = OK ms /\
    (forall i, In i ms <-> 0 <= i < 5 /\ isShort (sideOf poly i)) /\
    Sorted.StronglySorted Z.lt ms.
Proof.
  intros H. destruct (pentagon_inv poly H) as (v0 & v1 & v2 & v3 & v4 & ->).
  eexists. split; [apply matchingSides_pentagon|]. split.
  - intros i. rewrite filter_In, root_ltb_short. unfold sideOf.
    change (len [v0; v1; v2; v3; v4]) with 5.
    clear H. split; intros [Hi Hs]; (split; [|exact Hs]).
    + simpl in Hi. lia.
    + simpl. lia.
  - cbn [filter].
    repeat match goal with
           | |- context [if ?b then _ else _] => destruct b
           end;
    repeat (constructor; try lia).
Qed.

(** C2, amended: on a 5-vertex polygon the short sides are those of
    Euclidean length below 80, listed by index.  When there are three or
    more of them the loop examines side [k] with side [(k + 1) mod 3] of
    that list, and at the first pair that shares an end point (equal
    coordinates) it stops: the corner is a point the two sides share and
    the axis end point is the integer midpoint of side [(k + 2) mod 3] of
    the list; such a pair is always found. *)
Theorem corner_resolver_first_match (poly : list point) :
  len poly = 5 ->
  exists ms,
    matchingSidesOf poly = OK ms /\
    (forall i, In i ms <-> 0 <= i < 5 /\ isShort (sideOf poly i)) /\
    Sorted.StronglySorted Z.lt ms /\
    (3 <= len ms ->
     (forall k s1 s2,
        getitem ms k = OK s1 ->
        getitem ms ((k + 1) mod 3) = OK s2 ->
        shareEndpoint (sideOf poly s1) (sideOf poly s2) ->
        (forall j a b, 0 <= j < k ->
           getitem ms j = OK a -> getitem ms ((j + 1) mod 3) = OK b ->
           ~ shareEndpoint (sideOf poly a) (sideOf poly b)) ->
        exists corner s3,
          getitem ms ((k + 2) mod 3) = OK s3 /\
          isEndpoint corner (sideOf poly s1) /\
          isEndpoint corner (sideOf poly s2) /\
          resolveCorner poly
          = OK (Some (corner, midpointOf (sideOf poly s3))) /\
          forall gray currentFrame,
            processPolygon gray currentFrame poly
            = (row <- decodeMarker gray currentFrame corner
                        (midpointOf (sideOf poly s3)) ;;
               OK (Some row))) /\
     exists corner middle, resolveCorner poly = OK (Some (corner, middle))).
Proof.
  intros H. destruct (matchingSides_spec poly H) as (ms & Ems & Hin & Hsorted).
  exists ms. split; [exact Ems|]. split; [exact Hin|]. split; [exact Hsorted|].
  intros Hlen.
  destruct (pentagon_inv poly H) as (v0 & v1 & v2 & v3 & v4 & ->).
  pose proof (matchingSides_range v0 v1 v2 v3 v4 ms Ems) as Hrange.
  split.
  - intros k s1 s2 H1 H2 Hshare Hfirst.
    destruct (getitem_within ms ((k + 2) mod 3)) as [s3 H3].
    { pose proof (Z.mod_pos_bound (k + 2) 3 ltac:(lia)). lia. }
    destruct (examined [v0; v1; v2; v3; v4] s1 s2) as [c|] eqn:Ec.
    2:{ exfalso. unfold examined in Ec. apply commonPoint_None in Ec.
        apply Ec. exact Hshare. }
    exists c, s3. split; [exact H3|].
    pose proof Ec as Ec'. unfold examined in Ec'.
    apply commonPoint_Some in Ec'. destruct Ec' as [Hc1 Hc2].
    split; [exact Hc1|]. split; [exact Hc2|].
    apply getitem_nth_error in H1. destruct H1 as [Hk H1].
    assert (forall M (marker : point -> point -> result M),
              cornerLoop marker [v0; v1; v2; v3; v4] 5 ms (enumerate ms)
              = (m <- marker c (midpointOf (sideOf [v0; v1; v2; v3; v4] s3)) ;;
                 OK (Some m))) as Hloop.
    { intros M marker.
      apply (cornerLoop_first_match v0 v1 v2 v3 v4 marker ms Hrange
               (Z.to_nat k) s1 s2 s3 c).
      - exact H1.
      - rewrite Z2Nat.id by lia. exact H2.
      - rewrite Z2Nat.id by lia. exact H3.
      - exact Ec.
      - intros j a Hj Ha.
        destruct (getitem_within ms ((Z.of_nat j + 1) mod 3)) as [b Hb].
        { pose proof (Z.mod_pos_bound (Z.of_nat j + 1) 3 ltac:(lia)). lia. }
        exists b. split; [exact Hb|].
        unfold examined. apply commonPoint_None.
        apply (Hfirst (Z.of_nat j) a b); [lia| |exact Hb].
        apply getitem_nth_error. split; [lia|]. rewrite Nat2Z.id. exact Ha. }
    split.
    + unfold resolveCorner. rewrite Ems. cbn [bind].
      change (len [v0; v1; v2; v3; v4]) with 5. rewrite Hloop. reflexivity.
    + intros gray currentFrame. unfold processPolygon. rewrite Ems. cbn [bind].
      change (len [v0; v1; v2; v3; v4]) with 5. apply Hloop.
  - destruct ms as [|m0 [|m1 [|m2 l]]];
      unfold len in Hlen; simpl in Hlen; try lia.
    assert (m0 < m1 < m2) as Hlt.
    { inversion Hsorted as [|? ? S1 F1]; subst.
      inversion S1 as [|? ? S2 F2]; subst.
      inversion F1; subst. inversion F2; subst. lia. }
    destruct (cornerLoop_three v0 v1 v2 v3 v4 _ m0 m1 m2 l Hrange eq_refl Hlt)
      as (c & s3 & _ & Hloop).
    exists c, (midpointOf (sideOf [v0; v1; v2; v3; v4] s3)).
    unfold resolveCorner. rewrite Ems. cbn [bind].
    change (len [v0; v1; v2; v3; v4]) with 5. rewrite Hloop. reflexivity.
Qed.

Lemma corner_resolver_first_match_witness :
  len notchedMarker = 5 /\
  matchingSidesOf notchedMarker = OK [0; 1; 2] /\
  exists corner,
    isEndpoint corner (sideOf notchedMarker 0) /\
    isEndpoint corner (sideOf notchedMarker 1) /\
    resolveCorner notchedMarker = OK (Some (corner, (100, 200))).
Proof.
  split; [reflexivity|]. split; [reflexivity|].
  destruct (corner_resolver_first_match notchedMarker eq_refl)
    as (ms & Ems & _ & _ & Hthree).
  apply OK_inj in Ems. subst ms.
  destruct (Hthree ltac:(vm_compute; discriminate)) as [Hfirst _].
  destruct (Hfirst 0 0 1 eq_refl eq_refl) as (corner & s3 & E3 & C1 & C2 & E & _).
  - exists (100, 100). split; [right|left]; reflexivity.
  - intros j a b Hj. lia.
  - apply OK_inj in E3. subst s3.
    exists corner. split; [exact C1|]. split; [exact C2 | exact E].
Defined.

(** C2 as stated fails: the two short sides of this 5-vertex polygon
    share the point (10,0), the first pair examined, and the resolver
    returns no corner: looking up a third short side raises. *)
Lemma corner_resolver_two_short_raises :
  len twoAdjacentShortSides = 5 /\
  matchingSidesOf twoAdjacentShortSides = OK [0; 1] /\
  shareEndpoint (sideOf twoAdjacentShortSides 0)
                (sideOf twoAdjacentShortSides 1) /\
  resolveCorner twoAdjacentShortSides = Raise IndexError /\
  processPolygon halfBright 0 twoAdjacentShortSides = Raise IndexError.
Proof.
  split; [reflexivity|]. split; [reflexivity|]. split.
  - exists (10, 0). split; [right | left]; reflexivity.
  - split; reflexivity.
Qed.

(** ** The sampling stride and the sample centres *)

Lemma cycleJump_zero (L : Z) : 0 <= L <= 5 -> cycleJumpOf L = 0.
Proof. intros H. unfold cycleJumpOf. apply Z.div_small. lia. Qed.

Lemma cycleJump_pos (L : Z) : 0 <= L -> (1 <= cycleJumpOf L <-> 6 <= L).
Proof.
  intros H. unfold cycleJumpOf. split; intros H1.
  - destruct (Z.le_gt_cases 6 L) as [|Hlt]; [assumption|].
    rewrite Z.div_small in H1 by lia. lia.
  - apply Z.div_le_lower_bound; lia.
Qed.

Lemma rangeUp_spec (fuel : nat) (start stop step : Z) :
  0 < step -> stop - start <= Z.of_nat fuel ->
  rangeUp fuel start stop step
  = map (fun k => start + step * Z.of_nat k)
        (seq 0 (Z.to_nat ((stop - start + step - 1) / step))).
Proof.
  intros Hstep. revert start.
  assert (forall a, a <= 0 -> Z.to_nat ((a + step - 1) / step) = 0%nat) as Hnone.
  { intros a Ha. assert ((a + step - 1) / step <= 0); [|lia].
    apply Z.lt_succ_r. apply Z.div_lt_upper_bound; lia. }
  induction fuel as [|fuel IH]; intros start Hfuel.
  - rewrite Hnone by lia. reflexivity.
  - cbn [rangeUp]. destruct (Z.ltb_spec start stop) as [Hlt|Hge].
    + rewrite IH by lia.
      replace (stop - start + step - 1)
        with ((stop - (start + step) + step - 1) + 1 * step) by lia.
      rewrite Z.div_add by lia.
      assert (0 <= (stop - (start + step) + step - 1) / step)
        by (apply Z.div_pos; lia).
      rewrite Z2Nat.inj_add by lia.
      change (Z.to_nat 1) with 1%nat. rewrite Nat.add_1_r. cbn [seq map].
      replace (start + step * Z.of_nat 0) with start by lia.
      apply (f_equal (cons start)).
      rewrite <- seq_shift, map_map.
      apply map_ext. intros k. lia.
    + rewrite Hnone by lia. reflexivity.
Qed.

(** For a path of at least 6 points the stride is positive and the
    centres are [cycleJump], [2 cycleJump], ... below the length. *)
Lemma range3_centres (L : Z) :
  6 <= L ->
  range3 (cycleJumpOf L) L (cycleJumpOf L)
  = OK (map (fun k => cycleJumpOf L + cycleJumpOf L * Z.of_nat k)
            (seq 0 (Z.to_nat ((L - 1) / cycleJumpOf L)))).
Proof.
  intros H. pose proof (proj2 (cycleJump_pos L ltac:(lia)) H) as Hcj.
  unfold range3.
  destruct (Z.eqb_spec (cycleJumpOf L) 0); [lia|].
  destruct (Z.ltb_spec 0 (cycleJumpOf L)); [|lia].
  rewrite rangeUp_spec by lia.
  replace (L - cycleJumpOf L + cycleJumpOf L - 1) with (L - 1) by lia.
  reflexivity.
Qed.

Lemma range3_zero_stride (L : Z) :
  0 <= L <= 5 -> range3 (cycleJumpOf L) L (cycleJumpOf L) = Raise ValueError.
Proof. intros H. rewrite cycleJump_zero by exact H. reflexivity. Qed.

(** Between five and nine centres; nine only for ten points; five from
    26 points on. *)
Lemma sample_count_bounds (L : Z) :
  6 <= L ->
  5 <= (L - 1) / cycleJumpOf L <= 9 /\
  ((L - 1) / cycleJumpOf L = 9 <-> L = 10) /\
  (26 <= L -> (L - 1) / cycleJumpOf L = 5).
Proof.
  intros H. pose proof (proj2 (cycleJump_pos L ltac:(lia)) H) as Hcj.
  assert (1000 * cycleJumpOf L <= L * 195 < 1000 * cycleJumpOf L + 1000) as B.
  { unfold cycleJumpOf. pose proof (Z.div_mod (L * 195) 1000 ltac:(lia)).
    pose proof (Z.mod_pos_bound (L * 195) 1000 ltac:(lia)). lia. }
  set (cj := cycleJumpOf L) in *.
  assert (5 <= (L - 1) / cj) as N5 by (apply Z.div_le_lower_bound; lia).
  assert ((L - 1) / cj < 10) as N10 by (apply Z.div_lt_upper_bound; lia).
  split; [lia|]. split.
  - split.
    + intros E. destruct (Z.eq_dec L 10) as [|N]; [assumption|]. exfalso.
      assert ((L - 1) / cj < 9); [|lia].
      apply Z.div_lt_upper_bound; lia.
    + intros ->. subst cj. reflexivity.
  - intros H26. assert ((L - 1) / cj < 6); [|lia].
    apply Z.div_lt_upper_bound; lia.
Qed.

(** ** The sampling loop *)

Lemma append_String (s : string) (c : ascii) (t : string) :
  ((s ++ String c EmptyString) ++ t)%string = (s ++ String c t)%string.
Proof.
  induction s as [|a s IH]; [reflexivity|].
  cbn [append]. rewrite IH. reflexivity.
Qed.

Lemma append_empty (s : string) : (s ++ EmptyString)%string = s.
Proof.
  induction s as [|a s IH]; [reflexivity|]. cbn [append]. rewrite IH. reflexivity.
Qed.

(** The loop reads the intensities at [lookupIndices], in order, and
    appends one digit for each. *)
Lemma sampleLoop_spec (gray : image) (markerAxis : list point)
    (centres : list Z) (actCycle : Z) (binaryRepr : string) :
  sampleLoop gray markerAxis centres actCycle binaryRepr
  = (vs <- mapM (lookupAt gray markerAxis) (lookupIndices centres actCycle) ;;
     OK (binaryRepr ++ bitString (map bitOf vs))%string).
Proof.
  revert actCycle binaryRepr.
  induction centres as [|c rest IH]; intros actCycle binaryRepr.
  - cbn. rewrite append_empty. reflexivity.
  - cbn [sampleLoop lookupIndices mapM]. unfold lookupAt at 1.
    destruct (getitem markerAxis (warp actCycle c)) as [pt|e]; [|reflexivity].
    cbn [bind].
    destruct (grayAt gray (snd pt) (fst pt)) as [v|e]; [|reflexivity].
    cbn [bind]. rewrite IH.
    destruct (mapM (lookupAt gray markerAxis)
                (lookupIndices rest (actCycle + 1))) as [vs|e]; [|reflexivity].
    cbn [bind map bitString]. f_equal.
    unfold bitOf, bitChar. destruct (v >? 180); cbn [negb]; apply append_String.
Qed.

Lemma mapM_length {A B : Type} (f : A -> result B) (l : list A) (bs : list B) :
  mapM f l = OK bs -> List.length bs = List.length l.
Proof.
  revert bs. induction l as [|a l IH]; intros bs; cbn [mapM].
  - intros E. apply OK_inj in E. subst bs. reflexivity.
  - destruct (f a) as [b|e]; [|discriminate]. cbn [bind].
    destruct (mapM f l) as [bs'|e]; [|discriminate]. cbn [bind].
    intros E. apply OK_inj in E. subst bs. simpl. rewrite (IH bs' eq_refl).
    reflexivity.
Qed.

Lemma mapM_total {A B : Type} (f : A -> result B) (l : list A) :
  (forall a, In a l -> exists b, f a = OK b) -> exists bs, mapM f l = OK bs.
Proof.
  induction l as [|a l IH]; intros H; [exists []; reflexivity|].
  destruct (H a (or_introl eq_refl)) as [b Eb].
  destruct IH as [bs Ebs]; [intros x Hx; apply H; right; exact Hx|].
  exists (b :: bs). cbn [mapM]. rewrite Eb, Ebs. reflexivity.
Qed.

Lemma lookupIndices_length (centres : list Z) (actCycle : Z) :
  List.length (lookupIndices centres actCycle) = List.length centres.
Proof.
  revert actCycle. induction centres as [|c rest IH]; intros a; [reflexivity|].
  simpl. rewrite IH. reflexivity.
Qed.

Lemma warp_bounds (actCycle c : Z) : 0 <= c -> 0 <= warp actCycle c <= c.
Proof.
  intros H. unfold warp.
  destruct (existsb _ _).
  - split; [apply Z.div_pos; lia | apply Z.div_le_upper_bound; lia].
  - destruct (actCycle =? 0); [|lia].
    split; [apply Z.div_pos; lia | apply Z.div_le_upper_bound; lia].
Qed.

Lemma lookupIndices_bounds (centres : list Z) (actCycle L : Z) :
  (forall c, In c centres -> 0 <= c < L) ->
  forall t, In t (lookupIndices centres actCycle) -> 0 <= t < L.
Proof.
  revert actCycle. induction centres as [|c rest IH]; intros a H t Hin.
  - destruct Hin.
  - destruct Hin as [<- | Hin].
    + pose proof (H c (or_introl eq_refl)).
      pose proof (warp_bounds a c ltac:(lia)). lia.
    + apply (IH (a + 1)); [|exact Hin]. intros x Hx. apply H. right. exact Hx.
Qed.

Lemma grayAt_inImage (gray : image) (pt : point) :
  inImage gray pt -> exists v, grayAt gray (snd pt) (fst pt) = OK v.
Proof.
  unfold inImage, grayAt, npIndex. intros [[Hr1 Hr2] [Hc1 Hc2]].
  destruct (Z.leb_spec 0 (snd pt)), (Z.ltb_spec (snd pt) (rows gray));
    cbn [andb]; try lia;
  destruct (Z.leb_spec 0 (fst pt)), (Z.ltb_spec (fst pt) (cols gray));
    cbn [andb bind]; try lia; eauto;
  repeat match goal with
         | |- context [?a <=? ?b] => destruct (Z.leb_spec a b); try lia
         | |- context [?a <? ?b] => destruct (Z.ltb_spec a b); try lia
         end; cbn [andb bind]; eauto.
Qed.

Lemma lookupAt_total (gray : image) (markerAxis : list point) (t : Z) :
  Forall (inImage gray) markerAxis -> 0 <= t < len markerAxis ->
  exists v, lookupAt gray markerAxis t = OK v.
Proof.
  intros Himg Ht. unfold lookupAt.
  destruct (getitem_within markerAxis t Ht) as [pt Ept]. rewrite Ept. cbn [bind].
  apply grayAt_inImage. rewrite Forall_forall in Himg. apply Himg.
  eapply getitem_In. eassumption.
Qed.

(** ** Reading the digits *)

Lemma bitString_list (bits : list bool) :
  bitString bits = string_of_list_ascii (map bitChar bits).
Proof.
  induction bits as [|b rest IH]; [reflexivity|]. simpl. rewrite IH. reflexivity.
Qed.

Lemma reversed_bitString (bits : list bool) :
  reversed (bitString bits) = bitString (rev bits).
Proof.
  unfold reversed. rewrite !bitString_list, list_ascii_of_string_of_list_ascii.
  rewrite map_rev. reflexivity.
Qed.

Lemma int2Digits_bitString (bits : list bool) (acc : Z) :
  int2Digits (bitString bits) acc
  = OK (fold_left (fun a (b : bool) => 2 * a + (if b then 1 else 0)) bits acc).
Proof.
  revert acc. induction bits as [|b rest IH]; intros acc; [reflexivity|].
  destruct b; cbn [bitString bitChar int2Digits fold_left].
  - change (Ascii.eqb "1" "0") with false. change (Ascii.eqb "1" "1") with true.
    cbn iota. apply IH.
  - change (Ascii.eqb "0" "0") with true. cbn iota.
    rewrite IH. do 2 f_equal. lia.
Qed.

Lemma fold_left_rev_value (bits : list bool) :
  fold_left (fun a (b : bool) => 2 * a + (if b then 1 else 0)) (rev bits) 0
  = lsbFirstValue bits.
Proof.
  rewrite <- fold_left_rev_right, rev_involutive.
  induction bits as [|b rest IH]; [reflexivity|].
  cbn [fold_right lsbFirstValue]. rewrite IH. lia.
Qed.

(** Reversing the digits once and reading them most significant first
    reads the samples least significant first. *)
Lemma int2_reversed (bits : list bool) :
  bits <> [] -> int2 (reversed (bitString bits)) = OK (lsbFirstValue bits).
Proof.
  intros N. rewrite reversed_bitString.
  assert (int2 (bitString (rev bits)) = int2Digits (bitString (rev bits)) 0) as ->.
  { destruct (rev bits) as [|b r] eqn:E; [|reflexivity].
    apply (f_equal (@rev bool)) in E. rewrite rev_involutive in E.
    simpl in E. contradiction. }
  rewrite int2Digits_bitString. f_equal. apply fold_left_rev_value.
Qed.

Lemma lsbFirstValue_bound (bits : list bool) :
  0 <= lsbFirstValue bits < 2 ^ Z.of_nat (List.length bits).
Proof.
  induction bits as [|b rest IH]; [simpl; lia|].
  cbn [lsbFirstValue List.length]. rewrite Nat2Z.inj_succ, Z.pow_succ_r by lia.
  destruct b; lia.
Qed.

(** ** decodeRing *)

Lemma decodeRing_unfold (gray : image) (markerAxis : list point) (centres : list Z) :
  range3 (cycleJumpOf (len markerAxis)) (len markerAxis)
         (cycleJumpOf (len markerAxis)) = OK centres ->
  decodeRing gray markerAxis
  = (vs <- mapM (lookupAt gray markerAxis) (lookupIndices centres 0) ;;
     int2 (reversed (bitString (map bitOf vs)))).
Proof.
  intros H. unfold decodeRing. rewrite H. cbn [bind].
  rewrite sampleLoop_spec.
  destruct (mapM _ _) as [vs|e]; reflexivity.
Qed.

Lemma decodeRing_zero_stride (gray : image) (markerAxis : list point) :
  len markerAxis <= 5 -> decodeRing gray markerAxis = Raise ValueError.
Proof.
  intros H. unfold decodeRing.
  rewrite range3_zero_stride by (unfold len in *; lia). reflexivity.
Qed.

Lemma range3_OK_long (L : Z) (centres : list Z) :
  0 <= L -> range3 (cycleJumpOf L) L (cycleJumpOf L) = OK centres -> 6 <= L.
Proof.
  intros H0 E. destruct (Z.le_gt_cases 6 L) as [|Hlt]; [assumption|].
  rewrite range3_zero_stride in E by lia. discriminate.
Qed.

Lemma centres_bounds (L : Z) (centres : list Z) :
  6 <= L -> range3 (cycleJumpOf L) L (cycleJumpOf L) = OK centres ->
  len centres = (L - 1) / cycleJumpOf L /\
  forall c, In c centres -> 0 <= c < L.
Proof.
  intros H E. rewrite range3_centres in E by exact H. apply OK_inj in E.
  pose proof (proj2 (cycleJump_pos L ltac:(lia)) H) as Hcj.
  pose proof (sample_count_bounds L H) as [Hn _].
  subst centres. split.
  - unfold len. rewrite length_map, length_seq. lia.
  - intros c Hin. apply in_map_iff in Hin. destruct Hin as (k & <- & Hk).
    apply in_seq in Hk.
    pose proof (Z.mul_div_le (L - 1) (cycleJumpOf L) ltac:(lia)).
    assert (Z.of_nat k + 1 <= (L - 1) / cycleJumpOf L) by lia.
    assert (cycleJumpOf L * (Z.of_nat k + 1)
            <= cycleJumpOf L * ((L - 1) / cycleJumpOf L))
      by (apply Z.mul_le_mono_nonneg_l; lia).
    nia.
Qed.

(** What a completed decoding returns: the value of between five and
    nine digits. *)
Lemma decodeRing_value (gray : image) (markerAxis : list point) (id : Z) :
  6 <= len markerAxis ->
  decodeRing gray markerAxis = OK id ->
  exists vs,
    5 <= len vs <= 9 /\ id = lsbFirstValue (map bitOf vs).
Proof.
  intros H E.
  pose proof (range3_centres (len markerAxis) H) as R.
  destruct (centres_bounds _ _ H R) as [Hlen _].
  rewrite (decodeRing_unfold gray markerAxis _ R) in E.
  apply bind_OK in E. destruct E as (vs & Evs & E).
  exists vs.
  assert (len vs = (len markerAxis - 1) / cycleJumpOf (len markerAxis)) as Hvs.
  { unfold len at 1. rewrite (mapM_length _ _ _ Evs), lookupIndices_length.
    exact Hlen. }
  pose proof (sample_count_bounds (len markerAxis) H) as [Hn _].
  split; [lia|].
  rewrite int2_reversed in E.
  - apply OK_inj in E. symmetry. exact E.
  - intros N. apply (f_equal (@List.length bool)) in N.
    rewrite length_map in N. unfold len in Hvs at 1. simpl in N. lia.
Qed.

Lemma decodeRing_total (gray : image) (markerAxis : list point) :
  6 <= len markerAxis -> Forall (inImage gray) markerAxis ->
  exists id, decodeRing gray markerAxis = OK id.
Proof.
  intros H Himg.
  pose proof (range3_centres (len markerAxis) H) as R.
  destruct (centres_bounds _ _ H R) as [Hlen Hc].
  rewrite (decodeRing_unfold gray markerAxis _ R).
  destruct (mapM_total (lookupAt gray markerAxis)
              (lookupIndices
                 (map (fun k => cycleJumpOf (len markerAxis)
                                + cycleJumpOf (len markerAxis) * Z.of_nat k)
                      (seq 0 (Z.to_nat ((len markerAxis - 1)
                                        / cycleJumpOf (len markerAxis))))) 0))
    as [vs Evs].
  { intros t Ht. apply lookupAt_total; [exact Himg|].
    eapply lookupIndices_bounds; [exact Hc | exact Ht]. }
  rewrite Evs. cbn [bind].
  exists (lsbFirstValue (map bitOf vs)). apply int2_reversed.
  intros N. apply (f_equal (@List.length bool)) in N.
  rewrite length_map, (mapM_length _ _ _ Evs), lookupIndices_length in N.
  pose proof (sample_count_bounds (len markerAxis) H) as [Hn _].
  unfold len in Hlen at 1. simpl in N. lia.
Qed.

Lemma value_below (vs : list Z) (n : Z) :
  len vs <= n -> 0 <= lsbFirstValue (map bitOf vs) < 2 ^ n.
Proof.
  intros H. pose proof (lsbFirstValue_bound (map bitOf vs)) as B.
  rewrite length_map in B. unfold len in H.
  assert (2 ^ Z.of_nat (List.length vs) <= 2 ^ n)
    by (apply Z.pow_le_mono_r; lia).
  lia.
Qed.

Lemma ten_stride_lengths (L : Z) :
  0 <= L -> (10 * cycleJumpOf L <= L <-> L <= 5 \/ L = 10).
Proof.
  intros H.
  assert (1000 * cycleJumpOf L <= L * 195 < 1000 * cycleJumpOf L + 1000) as B.
  { unfold cycleJumpOf. pose proof (Z.div_mod (L * 195) 1000 ltac:(lia)).
    pose proof (Z.mod_pos_bound (L * 195) 1000 ltac:(lia)). lia. }
  destruct (Z.le_gt_cases 6 L) as [H6|H5].
  - pose proof (proj2 (cycleJump_pos L H) H6). lia.
  - rewrite cycleJump_zero by lia. lia.
Qed.

(** C4, amended: when the stride is at least 1, that is for a path of at
    least 6 points, and the points of the path index inside the frame,
    the loop completes and the identifier is in [0, 1023]; the paths of
    at most 5 points, all of which have length >= 10 * cycleJump with
    cycleJump = 0, end in the [ValueError] of a zero range step. *)
Theorem ring_decoder_completes (gray : image) (markerAxis : list point) :
  (6 <= len markerAxis -> Forall (inImage gray) markerAxis ->
   exists id, decodeRing gray markerAxis = OK id /\ 0 <= id <= 1023) /\
  (len markerAxis <= 5 -> decodeRing gray markerAxis = Raise ValueError) /\
  (10 * cycleJumpOf (len markerAxis) <= len markerAxis
   <-> len markerAxis <= 5 \/ len markerAxis = 10).
Proof.
  split; [|split].
  - intros H Himg. destruct (decodeRing_total gray markerAxis H Himg) as [id E].
    exists id. split; [exact E|].
    destruct (decodeRing_value gray markerAxis id H E) as (vs & Hvs & ->).
    pose proof (value_below vs 10 ltac:(lia)). lia.
  - apply decodeRing_zero_stride.
  - apply ten_stride_lengths. unfold len. lia.
Qed.

Lemma ring_decoder_completes_witness :
  6 <= len tenPointAxis /\ Forall (inImage rowFiveBright) tenPointAxis /\
  exists id, decodeRing rowFiveBright tenPointAxis = OK id /\ 0 <= id <= 1023.
Proof.
  assert (6 <= len tenPointAxis) as H by (vm_compute; discriminate).
  assert (Forall (inImage rowFiveBright) tenPointAxis) as F.
  { unfold tenPointAxis. cbn [seq map].
    repeat (constructor; [unfold inImage; cbn; lia|]). constructor. }
  split; [exact H|]. split; [exact F|].
  exact (proj1 (ring_decoder_completes rowFiveBright tenPointAxis) H F).
Defined.

(** C4 as stated fails: a path of five points has length >= 10 * cycleJump
    (the stride is 0) and its decoding raises. *)
Lemma ring_decoder_zero_stride_raises :
  10 * cycleJumpOf (len fivePointAxis) <= len fivePointAxis /\
  bresenhamLineGenerator 0 0 0 4 = OK fivePointAxis /\
  Forall (inImage rowFiveBright) fivePointAxis /\
  decodeRing rowFiveBright fivePointAxis = Raise ValueError.
Proof.
  split; [vm_compute; discriminate|]. split; [reflexivity|]. split.
  - unfold fivePointAxis. cbn [seq map].
    repeat (constructor; [unfold inImage; cbn; lia|]). constructor.
  - reflexivity.
Qed.

(** C10: when the loop runs at all (stride >= 1, equivalently at least 6
    points) it samples between 5 and 9 bits, 9 for a path of 10 points
    only and 5 from 26 points on, so a decoded identifier is below 512;
    and the decoding does complete when the path lies in the frame. *)
Theorem sampled_bits_at_most_nine (gray : image) (markerAxis : list point) :
  1 <= cycleJumpOf (len markerAxis) ->
  6 <= len markerAxis /\
  (exists centres,
     range3 (cycleJumpOf (len markerAxis)) (len markerAxis)
            (cycleJumpOf (len markerAxis)) = OK centres /\
     5 <= len centres <= 9 /\
     (len centres = 9 <-> len markerAxis = 10) /\
     (26 <= len markerAxis -> len centres = 5)) /\
  (forall id, decodeRing gray markerAxis = OK id -> 0 <= id < 512) /\
  (Forall (inImage gray) markerAxis ->
   exists id, decodeRing gray markerAxis = OK id).
Proof.
  intros Hcj.
  assert (6 <= len markerAxis) as H
    by (apply cycleJump_pos; [unfold len; lia | exact Hcj]).
  split; [exact H|]. split; [|split].
  - eexists. split; [apply range3_centres; exact H|].
    destruct (centres_bounds _ _ H (range3_centres _ H)) as [-> _].
    apply sample_count_bounds. exact H.
  - intros id E.
    destruct (decodeRing_value gray markerAxis id H E) as (vs & Hvs & ->).
    apply (value_below vs 9). lia.
  - apply decodeRing_total. exact H.
Qed.

Lemma sampled_bits_at_most_nine_witness :
  1 <= cycleJumpOf (len tenPointAxis) /\
  forall id, decodeRing rowFiveBright tenPointAxis = OK id -> 0 <= id < 512.
Proof.
  assert (1 <= cycleJumpOf (len tenPointAxis)) as H by (vm_compute; discriminate).
  split; [exact H|].
  exact (proj1 (proj2 (proj2 (sampled_bits_at_most_nine rowFiveBright
                                tenPointAxis H)))).
Defined.

(** ** The digits and the identifier *)

Lemma get_bitString (k : nat) (bits : list bool) :
  String.get k (bitString bits) = option_map bitChar (nth_error bits k).
Proof.
  revert k. induction bits as [|b rest IH]; intros k.
  - destruct k; reflexivity.
  - destruct k as [|k]; [reflexivity|]. cbn [bitString String.get nth_error].
    apply IH.
Qed.

Lemma length_bitString (bits : list bool) :
  String.length (bitString bits) = List.length bits.
Proof.
  induction bits as [|b rest IH]; [reflexivity|]. simpl. rewrite IH. reflexivity.
Qed.

(** C5: each sampled point gives the digit 0 when its intensity exceeds
    180 and the digit 1 otherwise; the digits are appended in sampling
    order; the string is reversed once and read in base 2, so the first
    sample is the least significant bit; the digits 1010000000 give 5. *)
Theorem ring_decoder_bits (gray : image) (markerAxis : list point)
    (centres vs : list Z) :
  range3 (cycleJumpOf (len markerAxis)) (len markerAxis)
         (cycleJumpOf (len markerAxis)) = OK centres ->
  mapM (lookupAt gray markerAxis) (lookupIndices centres 0) = OK vs ->
  exists binaryRepr,
    sampleLoop gray markerAxis centres 0 EmptyString = OK binaryRepr /\
    String.length binaryRepr = List.length vs /\
    (forall k v, nth_error vs k = Some v ->
       String.get k binaryRepr
       = Some (if v >? 180 then "0"%char else "1"%char)) /\
    decodeRing gray markerAxis = int2 (reversed binaryRepr) /\
    decodeRing gray markerAxis
    = OK (lsbFirstValue (map (fun v => negb (v >? 180)) vs)) /\
    int2 (reversed "1010000000") = OK 5.
Proof.
  intros R Evs. exists (bitString (map bitOf vs)).
  assert (decodeRing gray markerAxis
          = int2 (reversed (bitString (map bitOf vs)))) as D.
  { rewrite (decodeRing_unfold gray markerAxis centres R), Evs. reflexivity. }
  split; [|split; [|split; [|split; [|split]]]].
  - rewrite sampleLoop_spec, Evs. reflexivity.
  - rewrite length_bitString, length_map. reflexivity.
  - intros k v Hk. rewrite get_bitString, nth_error_map, Hk.
    unfold bitOf, bitChar. cbn [option_map]. destruct (v >? 180); reflexivity.
  - exact D.
  - rewrite D. apply int2_reversed.
    intros N. apply (f_equal (@List.length bool)) in N.
    rewrite length_map, (mapM_length _ _ _ Evs), lookupIndices_length in N.
    assert (6 <= len markerAxis) as H
      by (apply (range3_OK_long _ centres); [unfold len; lia | exact R]).
    destruct (centres_bounds _ _ H R) as [Hlen _].
    pose proof (sample_count_bounds (len markerAxis) H) as [Hn _].
    unfold len in Hlen at 1. simpl in N. lia.
  - reflexivity.
Qed.

Lemma ring_decoder_bits_witness :
  range3 (cycleJumpOf (len verticalAxis)) (len verticalAxis)
         (cycleJumpOf (len verticalAxis)) = OK [19; 38; 57; 76; 95] /\
  mapM (lookupAt halfBright verticalAxis)
       (lookupIndices [19; 38; 57; 76; 95] 0) = OK [255; 255; 255; 0; 0] /\
  decodeRing halfBright verticalAxis = OK 24.
Proof.
  assert (range3 (cycleJumpOf (len verticalAxis)) (len verticalAxis)
                 (cycleJumpOf (len verticalAxis)) = OK [19; 38; 57; 76; 95])
    as R by reflexivity.
  assert (mapM (lookupAt halfBright verticalAxis)
               (lookupIndices [19; 38; 57; 76; 95] 0)
          = OK [255; 255; 255; 0; 0]) as V by reflexivity.
  split; [exact R|]. split; [exact V|].
  destruct (ring_decoder_bits halfBright verticalAxis _ _ R V)
    as (b & _ & _ & _ & _ & E & _).
  exact E.
Defined.

(** ** The warp correction *)

Lemma lookupIndices_nth (centres : list Z) (actCycle : Z) (k : nat) (c : Z) :
  nth_error centres k = Some c ->
  nth_error (lookupIndices centres actCycle) k
  = Some (warp (actCycle + Z.of_nat k) c).
Proof.
  revert actCycle k. induction centres as [|x rest IH]; intros a k H.
  - destruct k; discriminate.
  - destruct k as [|k].
    + simpl in H. injection H as ->. cbn. rewrite Z.add_0_r. reflexivity.
    + simpl in H. cbn [lookupIndices nth_error].
      rewrite (IH (a + 1) k H). do 2 f_equal. lia.
Qed.

Lemma warp_of_sample (k : nat) (c : Z) : warp (Z.of_nat k) c = warpOfSample k c.
Proof.
  destruct k as [|[|[|[|[|k]]]]]; try reflexivity.
  unfold warp, warpOfSample. cbn [existsb].
  repeat match goal with
         | |- context [?a =? ?b] => destruct (Z.eqb_spec a b); [lia|]
         end.
  reflexivity.
Qed.

(** C6, amended: the loop looks the intensities up at the indices
    [lookupIndices]; the index of the first sample is its centre scaled
    by 0.9, that of the second to the fifth sample the centre scaled by
    0.85, and from the sixth sample on the centre itself. *)
Theorem warp_correction_by_sample (gray : image) (markerAxis : list point)
    (centres : list Z) :
  sampleLoop gray markerAxis centres 0 EmptyString
  = (vs <- mapM (lookupAt gray markerAxis) (lookupIndices centres 0) ;;
     OK (bitString (map bitOf vs))) /\
  forall (k : nat) (c : Z),
    nth_error centres k = Some c ->
    nth_error (lookupIndices centres 0) k
    = Some (match k with
            | 0%nat => c * 9 / 10
            | 1%nat | 2%nat | 3%nat | 4%nat => c * 85 / 100
            | _ => c
            end).
Proof.
  split.
  - rewrite sampleLoop_spec. destruct (mapM _ _); reflexivity.
  - intros k c H. rewrite (lookupIndices_nth centres 0 k c H).
    rewrite Z.add_0_l, warp_of_sample. reflexivity.
Qed.

Lemma warp_correction_by_sample_witness :
  nth_error [1; 2; 3; 4; 5; 6; 7; 8; 9] 5 = Some 6 /\
  nth_error (lookupIndices [1; 2; 3; 4; 5; 6; 7; 8; 9] 0) 5 = Some 6.
Proof.
  split; [reflexivity|].
  exact (proj2 (warp_correction_by_sample rowFiveBright tenPointAxis
                  [1; 2; 3; 4; 5; 6; 7; 8; 9]) 5%nat 6 eq_refl).
Defined.

(** C6 as stated fails: on the ten-point path the sixth sample, centre 6,
    is looked up at index 6, not at [int(6 * 0.85) = 5]; the white row 5
    is never read and every bit is 1. *)
Lemma warp_correction_sixth_sample_unscaled :
  bresenhamLineGenerator 0 0 0 9 = OK tenPointAxis /\
  range3 (cycleJumpOf (len tenPointAxis)) (len tenPointAxis)
         (cycleJumpOf (len tenPointAxis)) = OK [1; 2; 3; 4; 5; 6; 7; 8; 9] /\
  nth_error (lookupIndices [1; 2; 3; 4; 5; 6; 7; 8; 9] 0) 5 = Some 6 /\
  6 * 85 / 100 = 5 /\
  lookupAt rowFiveBright tenPointAxis 5 = OK 255 /\
  decodeRing rowFiveBright tenPointAxis = OK 511.
Proof. repeat split; reflexivity. Qed.

(** ** Polygons and frames *)

Lemma processPolygon_no_short_side (gray : image) (currentFrame : Z)
    (poly : list point) :
  matchingSidesOf poly = OK [] -> processPolygon gray currentFrame poly = OK None.
Proof. intros E. unfold processPolygon. rewrite E. reflexivity. Qed.

Lemma polygonLoop_no_short_side (gray : image) (currentFrame : Z)
    (polygons rest : list (list point)) (out : list OutputRecord) :
  Forall (fun p => matchingSidesOf p = OK []) polygons ->
  polygonLoop gray currentFrame (polygons ++ rest) out
  = polygonLoop gray currentFrame rest out.
Proof.
  induction 1 as [|p l Hp _ IH]; [reflexivity|].
  cbn [app polygonLoop].
  rewrite (processPolygon_no_short_side gray currentFrame p Hp). exact IH.
Qed.

(** A short axis stops the decoding of a marker at the range of zero
    step. *)
Lemma decodeMarker_short_axis (gray : image) (currentFrame : Z) (a m : point) :
  Z.max (Z.abs (fst m - fst a)) (Z.abs (snd m - snd a)) <= 4 ->
  decodeMarker gray currentFrame a m = Raise ValueError.
Proof.
  intros H. unfold decodeMarker.
  destruct (bresenham_shape (fst a) (snd a) (fst m) (snd m))
    as (rest & E & Hlen).
  rewrite E. cbn [bind].
  rewrite decodeRing_zero_stride; [reflexivity|].
  unfold len, point in *. cbn [List.length]. rewrite Hlen. lia.
Qed.

(** An exception of a polygon is an exception of the frame, and it is
    that of the polygon when the polygons before it went through. *)
Lemma polygonLoop_raise (gray : image) (currentFrame : Z) (poly : list point)
    (after : list (list point)) (e : exn) :
  processPolygon gray currentFrame poly = Raise e ->
  forall before out,
    (exists e', polygonLoop gray currentFrame (before ++ poly :: after) out
                = Raise e') /\
    (forall rows,
       polygonLoop gray currentFrame before out = OK rows ->
       polygonLoop gray currentFrame (before ++ poly :: after) out = Raise e).
Proof.
  intros He. induction before as [|p ps IH]; intros out.
  - cbn [app polygonLoop]. rewrite He. split; [exists e|]; reflexivity.
  - cbn [app polygonLoop].
    destruct (processPolygon gray currentFrame p) as [r|e0].
    + cbn [bind]. apply IH.
    + cbn [bind]. split; [exists e0; reflexivity | discriminate].
Qed.

(** C3, amended: a 5-vertex polygon is passed over without a row exactly
    when it has no short side, and a frame of such polygons gives no rows;
    with one or two short sides the polygon raises [IndexError]; with
    three or more a corner is always resolved, and the decoding raises
    [ValueError] when the axis has fewer than 6 points; an exception of a
    polygon ends the frame with an exception, whatever the polygons
    before and after it, and with its own when those before it went
    through. *)
Theorem polygon_outcomes (gray : image) (currentFrame : Z)
    (poly : list point) (ms : list Z) :
  len poly = 5 ->
  matchingSidesOf poly = OK ms ->
  (len ms = 0 <-> processPolygon gray currentFrame poly = OK None) /\
  (1 <= len ms <= 2 ->
   processPolygon gray currentFrame poly = Raise IndexError) /\
  (3 <= len ms ->
   exists corner s3,
     In s3 ms /\
     resolveCorner poly = OK (Some (corner, midpointOf (sideOf poly s3))) /\
     processPolygon gray currentFrame poly
     = (row <- decodeMarker gray currentFrame corner
                 (midpointOf (sideOf poly s3)) ;;
        OK (Some row)) /\
     (Z.max (Z.abs (fst (midpointOf (sideOf poly s3)) - fst corner))
            (Z.abs (snd (midpointOf (sideOf poly s3)) - snd corner)) <= 4 ->
      processPolygon gray currentFrame poly = Raise ValueError)) /\
  (forall before after e,
     processPolygon gray currentFrame poly = Raise e ->
     (exists e',
        detectAndLabelMarkers gray currentFrame (before ++ poly :: after)
        = Raise e') /\
     (forall rows,
        detectAndLabelMarkers gray currentFrame before = OK rows ->
        detectAndLabelMarkers gray currentFrame (before ++ poly :: after)
        = Raise e)) /\
  (forall polygons,
     Forall (fun p => matchingSidesOf p = OK []) polygons ->
     detectAndLabelMarkers gray currentFrame polygons = OK []).
Proof.
  intros H Ems.
  destruct (matchingSides_spec poly H) as (ms' & Ems' & _ & Hsorted).
  rewrite Ems in Ems'. apply OK_inj in Ems'. subst ms'.
  destruct (pentagon_inv poly H) as (v0 & v1 & v2 & v3 & v4 & ->).
  pose proof (matchingSides_range v0 v1 v2 v3 v4 ms Ems) as Hrange.
  assert (1 <= len ms <= 2 ->
          processPolygon gray currentFrame [v0; v1; v2; v3; v4]
          = Raise IndexError) as Few.
  { intros H12. unfold processPolygon. rewrite Ems. cbn [bind].
    change (len [v0; v1; v2; v3; v4]) with 5.
    apply cornerLoop_too_few; assumption. }
  assert (3 <= len ms ->
          exists corner s3,
            In s3 ms /\
            resolveCorner [v0; v1; v2; v3; v4]
            = OK (Some (corner, midpointOf (sideOf [v0; v1; v2; v3; v4] s3))) /\
            processPolygon gray currentFrame [v0; v1; v2; v3; v4]
            = (row <- decodeMarker gray currentFrame corner
                        (midpointOf (sideOf [v0; v1; v2; v3; v4] s3)) ;;
               OK (Some row)) /\
            (Z.max (Z.abs (fst (midpointOf (sideOf [v0; v1; v2; v3; v4] s3))
                           - fst corner))
                   (Z.abs (snd (midpointOf (sideOf [v0; v1; v2; v3; v4] s3))
                           - snd corner)) <= 4 ->
             processPolygon gray currentFrame [v0; v1; v2; v3; v4]
             = Raise ValueError)) as Many.
  2:{ split; [|split; [exact Few|split; [exact Many|split]]].
  - split.
    + intros H0. apply processPolygon_no_short_side.
      destruct ms; [exact Ems | unfold len in H0; simpl in H0; lia].
    + intros Hnone. assert (0 <= len ms) by (unfold len; lia).
      destruct (Z.eq_dec (len ms) 0) as [|N]; [assumption|]. exfalso.
      destruct (Z.le_gt_cases 3 (len ms)) as [H3|H2].
      * destruct (Many H3) as (c & s3 & _ & _ & P & _).
        rewrite P in Hnone.
        destruct (decodeMarker gray currentFrame c _); discriminate.
      * rewrite Few in Hnone by lia. discriminate.
  - intros before after e He. unfold detectAndLabelMarkers.
    apply polygonLoop_raise. exact He.
  - intros polygons Hall. unfold detectAndLabelMarkers.
    rewrite <- (app_nil_r polygons).
    rewrite polygonLoop_no_short_side by exact Hall. reflexivity. }
  intros H3.
    destruct ms as [|m0 [|m1 [|m2 l]]]; unfold len in H3; simpl in H3; try lia.
    assert (m0 < m1 < m2) as Hlt.
    { inversion Hsorted as [|? ? S1 F1]; subst.
      inversion S1 as [|? ? S2 F2]; subst.
      inversion F1; subst. inversion F2; subst. lia. }
    destruct (cornerLoop_three v0 v1 v2 v3 v4 _ m0 m1 m2 l Hrange eq_refl Hlt)
      as (c & s3 & Hin & Hloop).
    exists c, s3. split; [exact Hin|].
    assert (processPolygon gray currentFrame [v0; v1; v2; v3; v4]
            = (row <- decodeMarker gray currentFrame c
                        (midpointOf (sideOf [v0; v1; v2; v3; v4] s3)) ;;
               OK (Some row))) as P.
    { unfold processPolygon. rewrite Ems. cbn [bind].
      change (len [v0; v1; v2; v3; v4]) with 5. apply Hloop. }
    split; [|split; [exact P|]].
    + unfold resolveCorner. rewrite Ems. cbn [bind].
      change (len [v0; v1; v2; v3; v4]) with 5. rewrite Hloop. reflexivity.
    + intros Hshort. rewrite P.
      rewrite decodeMarker_short_axis by exact Hshort. reflexivity.
Qed.

Lemma polygon_outcomes_witness :
  len twoShortSides = 5 /\
  matchingSidesOf twoShortSides = OK [0; 2] /\
  processPolygon halfBright 7 twoShortSides = Raise IndexError /\
  detectAndLabelMarkers halfBright 7 [notchedMarker]
  = OK [{| frameIndex := 7; identifier := 24;
           anchorX := 100; anchorY := 100 |}] /\
  detectAndLabelMarkers halfBright 7
    ([notchedMarker] ++ twoShortSides :: [wideOutline])
  = Raise IndexError.
Proof.
  assert (detectAndLabelMarkers halfBright 7 [notchedMarker]
          = OK [{| frameIndex := 7; identifier := 24;
                   anchorX := 100; anchorY := 100 |}]) as E by reflexivity.
  pose proof (polygon_outcomes halfBright 7 twoShortSides [0; 2]
                eq_refl eq_refl) as (_ & H12 & _ & Hframe & _).
  assert (processPolygon halfBright 7 twoShortSides = Raise IndexError) as P
    by (apply H12; vm_compute; split; discriminate).
  split; [reflexivity|]. split; [reflexivity|]. split; [exact P|].
  split; [exact E|].
  exact (proj2 (Hframe [notchedMarker] [wideOutline] IndexError P) _ E).
Defined.

(** C3 as stated fails: a polygon whose two short sides share no vertex
    is not passed over but raises, and so does a marker whose axis is
    3 points long; neither frame yields an empty set of rows. *)
Lemma frame_processing_raises :
  len twoShortSides = 5 /\
  matchingSidesOf twoShortSides = OK [0; 2] /\
  ~ shareEndpoint (sideOf twoShortSides 0) (sideOf twoShortSides 2) /\
  detectAndLabelMarkers halfBright 0 [twoShortSides] = Raise IndexError /\
  matchingSidesOf oneShortSide = OK [0] /\
  detectAndLabelMarkers halfBright 0 [oneShortSide] = Raise IndexError /\
  len tinyMarker = 5 /\
  resolveCorner tinyMarker = OK (Some ((100, 100), (100, 102))) /\
  bresenhamLineGenerator 100 100 100 102
  = OK [(100, 100); (100, 101); (100, 102)] /\
  detectAndLabelMarkers halfBright 0 [tinyMarker] = Raise ValueError.
Proof.
  split; [reflexivity|]. split; [reflexivity|]. split.
  - apply commonPoint_None. reflexivity.
  - repeat split; reflexivity.
Qed.

(** ** A decoded marker *)

(** A polygon with a resolved corner whose axis has at least 6 points, all
    inside the frame, gives one row: its anchor is the corner and its
    identifier is below 512. *)
Lemma decodeMarker_row (gray : image) (currentFrame : Z) (a m : point)
    (markerAxis : list point) :
  bresenhamLineGenerator (fst a) (snd a) (fst m) (snd m) = OK markerAxis ->
  6 <= len markerAxis ->
  Forall (inImage gray) markerAxis ->
  exists id,
    0 <= id < 512 /\
    decodeMarker gray currentFrame a m
    = OK {| frameIndex := currentFrame; identifier := id;
            anchorX := fst a; anchorY := snd a |}.
Proof.
  intros E H6 Himg.
  destruct (decodeRing_total gray markerAxis H6 Himg) as [id D].
  destruct (decodeRing_value gray markerAxis id H6 D) as (vs & Hvs & Hid).
  exists id. split; [subst id; apply (value_below vs 9); lia|].
  unfold decodeMarker. rewrite E. cbn [bind]. rewrite D. cbn [bind].
  destruct (bresenham_shape (fst a) (snd a) (fst m) (snd m)) as (rest & E' & _).
  rewrite E in E'. apply OK_inj in E'. subst markerAxis. reflexivity.
Qed.

Example notchedMarker_row :
  processPolygon halfBright 7 notchedMarker
  = OK (Some {| frameIndex := 7; identifier := 24;
                anchorX := 100; anchorY := 100 |}).
Proof. reflexivity. Qed.

(** ** The integer readings against the doubles

    On the operands a frame can give, the quotients and comparisons of
    the embedding are the values the double precision expressions of the
    source evaluate to. *)

Import Doubles.

Lemma cycleJump_double :
  forallb (fun L => cycleJumpDouble L =? cycleJumpOf L) (upTo 2048) = true.
Proof. vm_compute. reflexivity. Qed.

Lemma warp_double :
  forallb (fun t => (scale85Double t =? t * 85 / 100)
                    && (scale9Double t =? t * 9 / 10)) (upTo 2048) = true.
Proof. vm_compute. reflexivity. Qed.

Lemma slope_double :
  forallb (fun dx =>
    forallb (fun dy =>
      match slopeTestsDouble dx dy with
      | (lt1, ge1, gt1) =>
          Bool.eqb lt1 (Qlt_bool (Qmake dy (Z.to_pos dx)) 1)
          && Bool.eqb ge1 (Qle_bool 1 (Qmake dy (Z.to_pos dx)))
          && Bool.eqb gt1 (Qlt_bool 1 (Qmake dy (Z.to_pos dx)))
      end) (upTo 48)) (map Z.succ (upTo 48)) = true.
Proof. vm_compute. reflexivity. Qed.

Lemma slope_double_near_diagonal :
  forallb (fun dx =>
    forallb (fun dy =>
      match slopeTestsDouble dx dy with
      | (lt1, ge1, gt1) =>
          Bool.eqb lt1 (dy <? dx) && Bool.eqb ge1 (dx <=? dy)
          && Bool.eqb gt1 (dx <? dy)
      end) [dx - 1; dx; dx + 1]) (map Z.succ (upTo 2048)) = true.
Proof. vm_compute. reflexivity. Qed.

Lemma short_double :
  forallb (fun r => Bool.eqb (shortDouble r) (root_ltb (Sqrt r) 80))
          (upTo 8192) = true.
Proof. vm_compute. reflexivity. Qed.


(** * Further properties of the rasterizer *)

Lemma lineLoop_nth (n k : nat) (dx dy xs ys : Z) (emit : Z -> Z -> point)
    (s : Z * Z * Z) :
  (k <= n)%nat ->
  nth_error (emitOf emit s :: lineLoop n dx dy xs ys emit s) k
  = Some (emitOf emit (lineIter k dx dy xs ys s)).
Proof.
  revert k s. induction n as [|n IH]; intros k s Hk.
  - assert (k = 0%nat) by lia. subst k. reflexivity.
  - destruct k as [|k]; [reflexivity|].
    cbn [nth_error lineIter]. rewrite <- (IH k) by lia.
    cbn [lineLoop]. destruct (lineStep dx dy xs ys s) as [[x y] p].
    reflexivity.
Qed.

Lemma Some_inj {A : Type} (a b : A) : Some a = Some b -> a = b.
Proof. intros H. injection H as H. exact H. Qed.

Lemma nth_error_within {A : Type} (l : list A) (k : nat) (a : A) :
  nth_error l k = Some a -> (k < List.length l)%nat.
Proof. intros H. apply nth_error_Some. congruence. Qed.

(** The count of minor steps stays within half a step of the ideal
    count, hence never exceeds the minor extent. *)
Lemma minor_count_bound (minor major k c : Z) :
  0 <= minor <= major -> 0 < major -> 0 <= k <= major -> 0 <= c ->
  2 * minor - 2 * major
    <= 2 * minor - major + 2 * minor * k - 2 * major * c < 2 * minor ->
  2 * Z.abs (minor * k - major * c) <= major /\ c <= minor.
Proof.
  intros Hm HM Hk Hc Hp. split; [lia|].
  destruct (Z.le_gt_cases c minor) as [|Hgt]; [assumption|]. exfalso.
  assert (major * (minor + 1) <= major * c)
    by (apply Z.mul_le_mono_nonneg_l; lia).
  assert (minor * k <= minor * major)
    by (apply Z.mul_le_mono_nonneg_l; lia).
  lia.
Qed.

(** Point [k] of a steep path: [k] steps along [y], and along [x] the
    nearest integer to the ideal offset. *)
Lemma bresenham_point_steep (x0 y0 x1 y1 : Z) (l : list point) (k : nat)
    (pt : point) :
  Z.abs (x1 - x0) <= Z.abs (y1 - y0) ->
  bresenhamLineGenerator x0 y0 x1 y1 = OK l ->
  nth_error l k = Some pt ->
  exists c,
    0 <= c <= Z.abs (x1 - x0) /\
    Z.of_nat k <= Z.abs (y1 - y0) /\
    pt = (x0 + steepXStep x0 y0 x1 y1 * c,
          y0 + (if y0 >? y1 then -1 else 1) * Z.of_nat k) /\
    2 * Z.abs (Z.abs (x1 - x0) * Z.of_nat k - Z.abs (y1 - y0) * c)
      <= Z.abs (y1 - y0).
Proof.
  intros H E Hk. rewrite bresenham_steep in E by exact H.
  apply OK_inj in E. subst l.
  pose proof (nth_error_within _ _ _ Hk) as Hlt.
  cbn [List.length] in Hlt. rewrite lineLoop_length in Hlt.
  pose proof (lineLoop_nth (Z.to_nat (Z.abs (y1 - y0))) k (Z.abs (x1 - x0))
                (Z.abs (y1 - y0)) (steepXStep x0 y0 x1 y1)
                (if y0 >? y1 then -1 else 1) (fun x y => (x, y))
                (x0, y0, 2 * Z.abs (x1 - x0) - Z.abs (y1 - y0))
                ltac:(lia)) as N.
  assert (Some pt
          = Some (emitOf (fun x y => (x, y))
                    (lineIter k (Z.abs (x1 - x0)) (Z.abs (y1 - y0))
                       (steepXStep x0 y0 x1 y1) (if y0 >? y1 then -1 else 1)
                       (x0, y0, 2 * Z.abs (x1 - x0) - Z.abs (y1 - y0)))))
    as P by (rewrite <- Hk; exact N).
  apply Some_inj in P. clear N Hk.
  destruct (Z.eq_dec (Z.abs (y1 - y0)) 0) as [Z0|NZ].
  - assert (k = 0%nat) by lia. subst k. exists 0. cbn in P. subst pt.
    split; [lia|]. split; [lia|]. split; [f_equal; lia | lia].
  - destruct (lineIter_invariant k (Z.abs (x1 - x0)) (Z.abs (y1 - y0))
                (steepXStep x0 y0 x1 y1) (if y0 >? y1 then -1 else 1) x0 y0)
      as (c & Hc & Ec & Hp).
    + lia.
    + lia.
    + unfold steepXStep. destruct (_ || _); reflexivity.
    + rewrite Ec in P. cbn [emitOf] in P. exists c.
      destruct (minor_count_bound (Z.abs (x1 - x0)) (Z.abs (y1 - y0))
                  (Z.of_nat k) c) as [B1 B2]; try lia.
      split; [lia|]. split; [lia|]. split; [exact P | exact B1].
Qed.

(** Point [k] of a shallow path: [k] steps along [x], always towards
    larger [x]. *)
Lemma bresenham_point_shallow (x0 y0 x1 y1 : Z) (l : list point) (k : nat)
    (pt : point) :
  Z.abs (y1 - y0) < Z.abs (x1 - x0) ->
  bresenhamLineGenerator x0 y0 x1 y1 = OK l ->
  nth_error l k = Some pt ->
  exists c,
    0 <= c <= Z.abs (y1 - y0) /\
    Z.of_nat k <= Z.abs (x1 - x0) /\
    pt = (x0 + Z.of_nat k,
          y0 + (if (x0 >? x1) || (y0 >? y1) then -1 else 1) * c) /\
    2 * Z.abs (Z.abs (y1 - y0) * Z.of_nat k - Z.abs (x1 - x0) * c)
      <= Z.abs (x1 - x0).
Proof.
  intros H E Hk. rewrite bresenham_shallow in E by exact H.
  apply OK_inj in E. subst l.
  pose proof (nth_error_within _ _ _ Hk) as Hlt.
  cbn [List.length] in Hlt. rewrite lineLoop_length in Hlt.
  pose proof (lineLoop_nth (Z.to_nat (Z.abs (x1 - x0))) k (Z.abs (y1 - y0))
                (Z.abs (x1 - x0)) (if (x0 >? x1) || (y0 >? y1) then -1 else 1)
                1 (fun x y => (y, x))
                (y0, x0, 2 * Z.abs (y1 - y0) - Z.abs (x1 - x0))
                ltac:(lia)) as N.
  assert (Some pt
          = Some (emitOf (fun x y => (y, x))
                    (lineIter k (Z.abs (y1 - y0)) (Z.abs (x1 - x0))
                       (if (x0 >? x1) || (y0 >? y1) then -1 else 1) 1
                       (y0, x0, 2 * Z.abs (y1 - y0) - Z.abs (x1 - x0)))))
    as P by (rewrite <- Hk; exact N).
  apply Some_inj in P. clear N Hk.
  destruct (lineIter_invariant k (Z.abs (y1 - y0)) (Z.abs (x1 - x0))
              (if (x0 >? x1) || (y0 >? y1) then -1 else 1) 1 y0 x0)
    as (c & Hc & Ec & Hp).
  - lia.
  - lia.
  - destruct (_ || _); reflexivity.
  - rewrite Ec in P. cbn [emitOf] in P. exists c.
    destruct (minor_count_bound (Z.abs (y1 - y0)) (Z.abs (x1 - x0))
                (Z.of_nat k) c) as [B1 B2]; try lia.
    split; [lia|]. split; [lia|]. split; [|exact B1].
    rewrite P. f_equal. lia.
Qed.

(** X1: for every pair of end points the generator returns a list whose
    consecutive points differ by at most 1 in each coordinate. *)
Theorem bresenham_path_connected (x0 y0 x1 y1 : Z) :
  exists l,
    bresenhamLineGenerator x0 y0 x1 y1 = OK l /\ chained adjacent8 l.
Proof.
  destruct (bresenham_total x0 y0 x1 y1) as [l E].
  exists l. split; [exact E|].
  apply (bresenham_8_connected x0 y0 x1 y1). exact E.
Qed.

(** X2: point [k] of the returned list lies exactly [k] steps from the
    start along the dominant axis, so no pixel is listed twice, and its
    offset along the other axis is within half a step of the ideal
    offset [minor * k / major]. *)
Theorem bresenham_points (x0 y0 x1 y1 : Z) (l : list point) :
  bresenhamLineGenerator x0 y0 x1 y1 = OK l ->
  NoDup l /\
  forall (k : nat) (x y : Z),
    nth_error l k = Some (x, y) ->
    if Z.abs (y1 - y0) <? Z.abs (x1 - x0)
    then Z.abs (x - x0) = Z.of_nat k /\
         2 * Z.abs (Z.abs (y1 - y0) * Z.of_nat k
                    - Z.abs (x1 - x0) * Z.abs (y - y0)) <= Z.abs (x1 - x0)
    else Z.abs (y - y0) = Z.of_nat k /\
         2 * Z.abs (Z.abs (x1 - x0) * Z.of_nat k
                    - Z.abs (y1 - y0) * Z.abs (x - x0)) <= Z.abs (y1 - y0).
Proof.
  intros E.
  assert (forall (k : nat) (x y : Z),
            nth_error l k = Some (x, y) ->
            if Z.abs (y1 - y0) <? Z.abs (x1 - x0)
            then Z.abs (x - x0) = Z.of_nat k /\
                 2 * Z.abs (Z.abs (y1 - y0) * Z.of_nat k
                            - Z.abs (x1 - x0) * Z.abs (y - y0))
                   <= Z.abs (x1 - x0)
            else Z.abs (y - y0) = Z.of_nat k /\
                 2 * Z.abs (Z.abs (x1 - x0) * Z.of_nat k
                            - Z.abs (y1 - y0) * Z.abs (x - x0))
                   <= Z.abs (y1 - y0)) as P.
  { intros k x y Hk.
    destruct (Z.ltb_spec (Z.abs (y1 - y0)) (Z.abs (x1 - x0))) as [H|H].
    - destruct (bresenham_point_shallow x0 y0 x1 y1 l k (x, y) H E Hk)
        as (c & Hc & Hk' & Ept & B).
      injection Ept as -> ->.
      replace (Z.abs (y0 + (if (x0 >? x1) || (y0 >? y1) then -1 else 1) * c - y0))
        with c by (destruct (_ || _); lia).
      split; [lia | exact B].
    - destruct (bresenham_point_steep x0 y0 x1 y1 l k (x, y) H E Hk)
        as (c & Hc & Hk' & Ept & B).
      injection Ept as -> ->.
      replace (Z.abs (x0 + steepXStep x0 y0 x1 y1 * c - x0)) with c
        by (unfold steepXStep; destruct (_ || _); lia).
      split; [destruct (y0 >? y1); lia | exact B]. }
  split; [|exact P].
  apply NoDup_nth_error. intros i j Hi Hij.
  destruct (nth_error l i) as [[x y]|] eqn:Ei;
    [|apply nth_error_None in Ei; lia].
  symmetry in Hij.
  pose proof (P i x y Ei) as Pi. pose proof (P j x y Hij) as Pj.
  destruct (Z.abs (y1 - y0) <? Z.abs (x1 - x0)); lia.
Qed.

Lemma bresenham_points_witness :
  bresenhamLineGenerator 0 0 3 1 = OK [(0, 0); (1, 0); (2, 1); (3, 1)] /\
  NoDup [(0, 0); (1, 0); (2, 1); (3, 1)].
Proof.
  split; [reflexivity|].
  exact (proj1 (bresenham_points 0 0 3 1 _ eq_refl)).
Defined.

Lemma bresenham_box (x0 y0 x1 y1 : Z) (l : list point) :
  reachable x0 y0 x1 y1 ->
  bresenhamLineGenerator x0 y0 x1 y1 = OK l ->
  Forall (inBox (x0, y0) (x1, y1)) l.
Proof.
  intros D E.
  apply Forall_forall. intros pt Hin.
  apply In_nth_error in Hin. destruct Hin as [k Hk].
  unfold inBox. cbn [fst snd]. unfold reachable in D.
  destruct (Z.lt_ge_cases (Z.abs (y1 - y0)) (Z.abs (x1 - x0))) as [H|H].
  - destruct (bresenham_point_shallow x0 y0 x1 y1 l k pt H E Hk)
      as (c & Hc & Hk' & -> & _).
    cbn [fst snd]. assert (x0 < x1) by lia.
    destruct (Z.gtb_spec x0 x1); [lia|].
    destruct (Z.gtb_spec y0 y1); cbn [orb]; lia.
  - destruct (bresenham_point_steep x0 y0 x1 y1 l k pt H E Hk)
      as (c & Hc & Hk' & -> & _).
    cbn [fst snd]. unfold steepXStep.
    destruct (Z.ltb_spec (Z.abs (x1 - x0)) (Z.abs (y1 - y0)));
    destruct (Z.gtb_spec x0 x1); destruct (Z.gtb_spec y0 y1);
    destruct (Z.ltb_spec y0 y1); cbn [andb orb]; lia.
Qed.

(** X3: when the line runs rightwards, or is steeper than the diagonal,
    or is the diagonal with [y0 < y1], every point of the path lies in
    the rectangle spanned by the two end points and the path ends in
    [(x1, y1)]. *)
Theorem bresenham_within_box (x0 y0 x1 y1 : Z) (l : list point) :
  reachable x0 y0 x1 y1 ->
  bresenhamLineGenerator x0 y0 x1 y1 = OK l ->
  Forall (inBox (x0, y0) (x1, y1)) l /\ last l (x0, y0) = (x1, y1).
Proof.
  intros D E. split.
  - apply bresenham_box; assumption.
  - apply bresenham_end_reached; assumption.
Qed.

Lemma bresenham_within_box_witness :
  reachable 0 5 3 0 /\
  last [(0, 5); (1, 4); (1, 3); (2, 2); (2, 1); (3, 0)] (0, 5) = (3, 0).
Proof.
  assert (reachable 0 5 3 0) as D by (left; lia).
  split; [exact D|].
  exact (proj2 (bresenham_within_box 0 5 3 0 _ D eq_refl)).
Defined.

(** With no minor extent the loop walks the dominant axis only, whatever
    the order of the coordinates in the output and the minor step. *)
Lemma lineLoop_straight_emit (n j : nat) (major xs ys x y p : Z)
    (emit : Z -> Z -> point) :
  0 <= major -> p < 0 ->
  lineLoop n 0 major xs ys emit (x, y + ys * Z.of_nat j, p)
  = map (fun k => emit x (y + ys * Z.of_nat k)) (seq (S j) n).
Proof.
  intros HM Hp. revert j. induction n as [|n IH]; intros j; [reflexivity|].
  cbn [lineLoop lineStep seq map].
  destruct (Z.leb_spec 0 p) as [|_]; [lia|].
  replace (p + 2 * 0 - 2 * major * Z.abs (x - x)) with p
    by (rewrite Z.sub_diag; simpl Z.abs; lia).
  replace (y + ys * Z.of_nat j + ys) with (y + ys * Z.of_nat (S j)) by lia.
  rewrite IH. reflexivity.
Qed.

Lemma bresenham_flat (x0 y0 x1 : Z) :
  bresenhamLineGenerator x0 y0 x1 y0
  = OK (map (fun k => (x0 + Z.of_nat k, y0))
            (seq 0 (S (Z.to_nat (Z.abs (x1 - x0)))))).
Proof.
  destruct (Z.eq_dec x1 x0) as [->|N].
  - rewrite bresenham_steep by lia. rewrite !Z.sub_diag. cbn.
    do 3 f_equal. lia.
  - rewrite bresenham_shallow by (rewrite Z.sub_diag; simpl Z.abs; lia).
    rewrite Z.sub_diag. simpl (Z.abs 0).
    pose proof (lineLoop_straight_emit (Z.to_nat (Z.abs (x1 - x0))) 0
                  (Z.abs (x1 - x0))
                  (if (x0 >? x1) || (y0 >? y0) then -1 else 1) 1 y0 x0
                  (2 * 0 - Z.abs (x1 - x0)) (fun x y => (y, x))
                  ltac:(lia) ltac:(lia)) as L.
    replace (x0 + 1 * Z.of_nat 0) with x0 in L by lia.
    rewrite L. cbn [seq map]. f_equal. f_equal; [f_equal; lia|].
    apply map_ext. intros k. f_equal. lia.
Qed.

(** X4: for a horizontal input the path is the run [(x0 + k, y0)],
    [k = 0 .. |x1 - x0|], on whichever side of [x0] the end [x1] lies. *)
Theorem bresenham_horizontal (x0 y0 x1 : Z) :
  bresenhamLineGenerator x0 y0 x1 y0
  = OK (map (fun k => (x0 + Z.of_nat k, y0))
            (seq 0 (S (Z.to_nat (Z.abs (x1 - x0)))))) /\
  (x1 < x0 ->
   forall l, bresenhamLineGenerator x0 y0 x1 y0 = OK l -> ~ In (x1, y0) l).
Proof.
  split; [apply bresenham_flat|].
  intros Hlt l E. rewrite bresenham_flat in E. apply OK_inj in E. subst l.
  intros Hin. apply in_map_iff in Hin. destruct Hin as (k & Ek & _).
  injection Ek as Ek. lia.
Qed.

(** X5: a shallow line towards smaller [x] is drawn as the line to the
    end point mirrored in the start: the two calls return the same
    path. *)
Theorem bresenham_shallow_leftwards_mirror (x0 y0 x1 y1 : Z) :
  x1 < x0 -> Z.abs (y1 - y0) < x0 - x1 ->
  bresenhamLineGenerator x0 y0 x1 y1
  = bresenhamLineGenerator x0 y0 (2 * x0 - x1) (y0 - Z.abs (y1 - y0)) /\
  exists l,
    bresenhamLineGenerator x0 y0 x1 y1 = OK l /\
    last l (x0, y0) = (2 * x0 - x1, y0 - Z.abs (y1 - y0)).
Proof.
  intros Hx H. split.
  - rewrite (bresenham_shallow x0 y0 x1 y1) by lia.
    rewrite (bresenham_shallow x0 y0 (2 * x0 - x1) (y0 - Z.abs (y1 - y0)))
      by lia.
    replace (Z.abs (2 * x0 - x1 - x0)) with (Z.abs (x1 - x0)) by lia.
    replace (Z.abs (y0 - Z.abs (y1 - y0) - y0)) with (Z.abs (y1 - y0)) by lia.
    destruct (Z.eq_dec (Z.abs (y1 - y0)) 0) as [Z0|NZ].
    + rewrite Z0.
      pose proof (fun xs =>
        lineLoop_straight_emit (Z.to_nat (Z.abs (x1 - x0))) 0
          (Z.abs (x1 - x0)) xs 1 y0 x0 (2 * 0 - Z.abs (x1 - x0))
          (fun x y => (y, x)) ltac:(lia) ltac:(lia)) as L.
      replace (x0 + 1 * Z.of_nat 0) with x0 in L by lia.
      rewrite !L. reflexivity.
    + destruct (Z.gtb_spec x0 x1); [|lia].
      destruct (Z.gtb_spec x0 (2 * x0 - x1)); [lia|].
      destruct (Z.gtb_spec y0 (y0 - Z.abs (y1 - y0))); [|lia].
      reflexivity.
  - destruct (bresenham_total x0 y0 x1 y1) as [l E]. exists l.
    split; [exact E|].
    rewrite (bresenham_shallow_leftwards_end x0 y0 x1 y1 l Hx H E).
    f_equal. lia.
Qed.

Lemma bresenham_shallow_leftwards_mirror_witness :
  0 < 5 /\ Z.abs (1 - 0) < 5 - 0 /\
  bresenhamLineGenerator 5 0 0 1 = bresenhamLineGenerator 5 0 10 (-1).
Proof.
  split; [lia|]. split; [vm_compute; reflexivity|].
  exact (proj1 (bresenham_shallow_leftwards_mirror 5 0 0 1
                  ltac:(lia) ltac:(vm_compute; reflexivity))).
Defined.

Lemma gtb_shift (a x y : Z) : (x + a >? y + a) = (x >? y).
Proof. destruct (Z.gtb_spec (x + a) (y + a)), (Z.gtb_spec x y); lia. Qed.

Lemma ltb_shift (a x y : Z) : (x + a <? y + a) = (x <? y).
Proof. destruct (Z.ltb_spec (x + a) (y + a)), (Z.ltb_spec x y); lia. Qed.

(** The loop started from a moved state emits the moved points. *)
Lemma lineLoop_shift (n : nat) (dx dy xs ys a b : Z)
    (emit : Z -> Z -> point) (f : point -> point) (x y p : Z) :
  (forall u v, emit (u + a) (v + b) = f (emit u v)) ->
  lineLoop n dx dy xs ys emit (x + a, y + b, p)
  = map f (lineLoop n dx dy xs ys emit (x, y, p)).
Proof.
  intros Hemit. revert x y p. induction n as [|n IH]; intros x y p.
  - reflexivity.
  - cbn [lineLoop lineStep map].
    replace (y + b + ys) with (y + ys + b) by lia.
    destruct (0 <=? p).
    + replace (x + a + xs) with (x + xs + a) by lia.
      replace (x + xs + a - (x + a)) with (x + xs - x) by lia.
      rewrite IH, Hemit. reflexivity.
    + replace (x + a - (x + a)) with (x - x) by lia.
      rewrite IH, Hemit. reflexivity.
Qed.

(** X6: the path depends on the start only through a translation:
    moving both end points by [(a, b)] moves every point of the path by
    [(a, b)]. *)
Theorem bresenham_translate (x0 y0 x1 y1 a b : Z) :
  exists l,
    bresenhamLineGenerator x0 y0 x1 y1 = OK l /\
    bresenhamLineGenerator (x0 + a) (y0 + b) (x1 + a) (y1 + b)
    = OK (map (shift a b) l).
Proof.
  assert (Z.abs (x1 + a - (x0 + a)) = Z.abs (x1 - x0)) as Ax by lia.
  assert (Z.abs (y1 + b - (y0 + b)) = Z.abs (y1 - y0)) as Ay by lia.
  destruct (Z.lt_ge_cases (Z.abs (y1 - y0)) (Z.abs (x1 - x0))) as [H|H].
  - eexists. split; [apply bresenham_shallow; exact H|].
    rewrite bresenham_shallow by lia.
    rewrite Ax, Ay, !gtb_shift. cbn [map]. unfold shift at 1. cbn [fst snd].
    rewrite (lineLoop_shift _ _ _ _ _ b a (fun x y => (y, x)) (shift a b))
      by (intros u v; reflexivity).
    reflexivity.
  - eexists. split; [apply bresenham_steep; exact H|].
    rewrite bresenham_steep by lia.
    unfold steepXStep. rewrite Ax, Ay, !gtb_shift, ltb_shift.
    cbn [map]. unfold shift at 1. cbn [fst snd].
    rewrite (lineLoop_shift _ _ _ _ _ a b (fun x y => (x, y)) (shift a b))
      by (intros u v; reflexivity).
    reflexivity.
Qed.

(** * Further properties of the decoder and of the frame loop *)

Lemma mapM_raise {A B : Type} (f : A -> result B) (l : list A) (e : exn) :
  mapM f l = Raise e -> exists a, In a l /\ f a = Raise e.
Proof.
  induction l as [|a l IH]; cbn [mapM]; [discriminate|].
  destruct (f a) as [b|e'] eqn:Ea.
  - cbn [bind]. destruct (mapM f l) as [bs|e'']; [discriminate|].
    cbn [bind]. intros H. injection H as ->.
    destruct (IH eq_refl) as (x & Hx & Ex). exists x. split; [right|]; assumption.
  - cbn [bind]. intros H. injection H as ->. exists a. split; [left|]; auto.
Qed.

Lemma grayAt_raise (gray : image) (pt : point) (e : exn) :
  grayAt gray (snd pt) (fst pt) = Raise e ->
  e = IndexError /\ ~ inImage gray pt.
Proof.
  intros H. split.
  - unfold grayAt, npIndex in H.
    repeat match type of H with
           | context [if ?b then _ else _] => destruct b; cbn [bind] in H
           end; congruence.
  - intros Hin. destruct (grayAt_inImage gray pt Hin) as [v Ev]. congruence.
Qed.

Lemma lookupIndices_sorted (cj : Z) (n : nat) :
  1 <= cj -> (n <= 9)%nat ->
  Sorted Z.lt
    (lookupIndices (map (fun k => cj + cj * Z.of_nat k) (seq 0 n)) 0).
Proof.
  intros Hcj Hn.
  do 10 (destruct n as [|n]; [cbn; repeat constructor;
                              Z.to_euclidean_division_equations; lia|]).
  lia.
Qed.

(** X7: for a path the loop runs on (stride at least 1) the indices looked
    up in the path are inside the path and strictly increasing, and the
    only way the decoding can fail is the [IndexError] of a path point
    that is no index of the image. *)
Theorem sample_lookups (gray : image) (markerAxis : list point)
    (centres : list Z) :
  range3 (cycleJumpOf (len markerAxis)) (len markerAxis)
         (cycleJumpOf (len markerAxis)) = OK centres ->
  Forall (fun t => 0 <= t < len markerAxis) (lookupIndices centres 0) /\
  StronglySorted Z.lt (lookupIndices centres 0) /\
  forall e, decodeRing gray markerAxis = Raise e ->
    e = IndexError /\ exists pt, In pt markerAxis /\ ~ inImage gray pt.
Proof.
  intros R.
  assert (6 <= len markerAxis) as H
    by (apply (range3_OK_long _ centres); [unfold len; lia | exact R]).
  destruct (centres_bounds _ _ H R) as [Hlen Hc].
  pose proof (sample_count_bounds (len markerAxis) H) as [Hn _].
  assert (forall t, In t (lookupIndices centres 0) -> 0 <= t < len markerAxis)
    as Hidx by (apply lookupIndices_bounds; exact Hc).
  split; [apply Forall_forall; exact Hidx|]. split.
  - pose proof R as R'. rewrite range3_centres in R' by exact H.
    apply OK_inj in R'. subst centres.
    apply Sorted_StronglySorted; [intros x y z; apply Z.lt_trans|].
    apply lookupIndices_sorted.
    + apply cycleJump_pos; [unfold len; lia | exact H].
    + lia.
  - intros e E. rewrite (decodeRing_unfold gray markerAxis centres R) in E.
    destruct (mapM (lookupAt gray markerAxis) (lookupIndices centres 0))
      as [vs|e'] eqn:Evs; cbn [bind] in E.
    + exfalso. rewrite int2_reversed in E; [discriminate|].
      intros N. apply (f_equal (@List.length bool)) in N.
      rewrite length_map, (mapM_length _ _ _ Evs), lookupIndices_length in N.
      unfold len in Hlen at 1. simpl in N. lia.
    + injection E as ->.
      destruct (mapM_raise _ _ _ Evs) as (t & Ht & Et).
      unfold lookupAt in Et.
      destruct (getitem_within markerAxis t (Hidx t Ht)) as [pt Ept].
      rewrite Ept in Et. cbn [bind] in Et.
      destruct (grayAt_raise gray pt e Et) as [-> Hout].
      split; [reflexivity|]. exists pt. split; [|exact Hout].
      eapply getitem_In. eassumption.
Qed.

Lemma sample_lookups_witness :
  range3 (cycleJumpOf (len verticalAxis)) (len verticalAxis)
         (cycleJumpOf (len verticalAxis)) = OK [19; 38; 57; 76; 95] /\
  StronglySorted Z.lt (lookupIndices [19; 38; 57; 76; 95] 0).
Proof.
  assert (range3 (cycleJumpOf (len verticalAxis)) (len verticalAxis)
                 (cycleJumpOf (len verticalAxis)) = OK [19; 38; 57; 76; 95])
    as R by reflexivity.
  split; [exact R|].
  exact (proj1 (proj2 (sample_lookups halfBright verticalAxis _ R))).
Defined.

(** X8: a marker whose corner and axis end are pixels of the frame, at
    least 5 pixels apart along one axis and in a direction the rasterizer
    reaches, is decoded: the row carries the frame index, the corner as
    anchor and an identifier below 512. *)
Theorem marker_in_frame_decoded (gray : image) (currentFrame : Z)
    (a m : point) :
  onFrame gray a -> onFrame gray m ->
  reachable (fst a) (snd a) (fst m) (snd m) ->
  5 <= Z.max (Z.abs (fst m - fst a)) (Z.abs (snd m - snd a)) ->
  exists id,
    0 <= id < 512 /\
    decodeMarker gray currentFrame a m
    = OK {| frameIndex := currentFrame; identifier := id;
            anchorX := fst a; anchorY := snd a |}.
Proof.
  intros Ha Hm D Hfar.
  destruct (bresenham_shape (fst a) (snd a) (fst m) (snd m))
    as (rest & E & Hlen).
  apply (decodeMarker_row gray currentFrame a m _ E).
  - unfold len, point in *. cbn [List.length]. rewrite Hlen. lia.
  - pose proof (bresenham_box _ _ _ _ _ D E) as B.
    rewrite Forall_forall in B |- *. intros pt Hpt.
    specialize (B pt Hpt). unfold inBox in B. cbn [fst snd] in B.
    unfold onFrame in Ha, Hm. unfold inImage. lia.
Qed.

Lemma marker_in_frame_decoded_witness :
  onFrame halfBright (100, 100) /\ onFrame halfBright (100, 200) /\
  reachable 100 100 100 200 /\
  exists id,
    0 <= id < 512 /\
    decodeMarker halfBright 7 (100, 100) (100, 200)
    = OK {| frameIndex := 7; identifier := id;
            anchorX := 100; anchorY := 100 |}.
Proof.
  assert (onFrame halfBright (100, 100)) as A by (unfold onFrame; cbn; lia).
  assert (onFrame halfBright (100, 200)) as M by (unfold onFrame; cbn; lia).
  assert (reachable 100 100 100 200) as D by (left; lia).
  split; [exact A|]. split; [exact M|]. split; [exact D|].
  apply (marker_in_frame_decoded halfBright 7 (100, 100) (100, 200) A M D).
  cbn. lia.
Defined.

(** The rows collected so far are only ever extended. *)
Lemma polygonLoop_out (gray : image) (currentFrame : Z)
    (polygons : list (list point)) (out : list OutputRecord) :
  polygonLoop gray currentFrame polygons out
  = (rows <- polygonLoop gray currentFrame polygons [] ;; OK (out ++ rows)).
Proof.
  revert out. induction polygons as [|p rest IH]; intros out.
  - cbn. rewrite app_nil_r. reflexivity.
  - cbn [polygonLoop].
    destruct (processPolygon gray currentFrame p) as [r|e]; [|reflexivity].
    cbn [bind]. rewrite IH. rewrite (IH (match r with
                                         | Some row => [] ++ [row]
                                         | None => []
                                         end)).
    destruct (polygonLoop gray currentFrame rest []) as [rows|e];
      [|reflexivity].
    cbn [bind]. destruct r; cbn [app]; [|reflexivity].
    rewrite <- app_assoc. reflexivity.
Qed.

(** X9: the rows of a list of polygons are the rows of a first part
    followed by the rows of the rest, and an exception of the first part
    is the exception of the whole. *)
Theorem frame_rows_compose (gray : image) (currentFrame : Z)
    (first rest : list (list point)) :
  detectAndLabelMarkers gray currentFrame (first ++ rest)
  = (rows1 <- detectAndLabelMarkers gray currentFrame first ;;
     rows2 <- detectAndLabelMarkers gray currentFrame rest ;;
     OK (rows1 ++ rows2)).
Proof.
  unfold detectAndLabelMarkers.
  generalize (@nil OutputRecord) at 1 2 as out.
  induction first as [|p ps IH]; intros out.
  - cbn [app polygonLoop bind]. apply polygonLoop_out.
  - cbn [app polygonLoop].
    destruct (processPolygon gray currentFrame p) as [r|e]; [|reflexivity].
    cbn [bind]. apply IH.
Qed.

Lemma cornerLoop_Some {M : Type} (marker : point -> point -> result M)
    (poly : list point) (totalVertices : Z) (matchingSides : list Z)
    (items : list (Z * Z)) (m : M) :
  cornerLoop marker poly totalVertices matchingSides items = OK (Some m) ->
  exists corner middle, In corner poly /\ marker corner middle = OK m.
Proof.
  induction items as [|[loopIndex side] rest IH]; [discriminate|].
  cbn [cornerLoop]. intros H.
  apply bind_OK in H. destruct H as (p1 & E1 & H).
  apply bind_OK in H. destruct H as (p2 & E2 & H).
  apply bind_OK in H. destruct H as (next & E3 & H).
  apply bind_OK in H. destruct H as (p3 & E4 & H).
  apply bind_OK in H. destruct H as (p4 & E5 & H).
  destruct (commonPoint p1 p2 p3 p4) as [c|] eqn:Ec; [|apply IH; exact H].
  apply bind_OK in H. destruct H as (third & E6 & H).
  apply bind_OK in H. destruct H as (l0 & E7 & H).
  apply bind_OK in H. destruct H as (l1 & E8 & H).
  apply bind_OK in H. destruct H as (m' & E9 & H).
  injection H as <-.
  exists c. eexists. split; [|exact E9].
  unfold commonPoint in Ec.
  destruct (_ || _) in Ec.
  - injection Ec as <-. eapply getitem_In; eassumption.
  - destruct (_ || _) in Ec; [|discriminate].
    injection Ec as <-. eapply getitem_In; eassumption.
Qed.

Lemma decodeMarker_OK (gray : image) (currentFrame : Z) (a m : point)
    (row : OutputRecord) :
  decodeMarker gray currentFrame a m = OK row ->
  frameIndex row = currentFrame /\
  (anchorX row, anchorY row) = a /\
  0 <= identifier row < 512.
Proof.
  unfold decodeMarker. intros H.
  destruct (bresenham_shape (fst a) (snd a) (fst m) (snd m))
    as (rest & E & _).
  rewrite E in H. cbn [bind] in H.
  apply bind_OK in H. destruct H as (id & D & H).
  cbn in H. injection H as <-. cbn.
  split; [reflexivity|]. split; [destruct a; reflexivity|].
  destruct (Z.le_gt_cases 6 (len (((fst a, snd a) : point) :: rest)))
    as [H6|H5].
  - destruct (decodeRing_value gray _ id H6 D) as (vs & Hvs & ->).
    apply (value_below vs 9). lia.
  - rewrite decodeRing_zero_stride in D by lia. discriminate.
Qed.

Lemma polygonLoop_rows (gray : image) (currentFrame : Z)
    (polygons : list (list point)) (out rows : list OutputRecord) :
  polygonLoop gray currentFrame polygons out = OK rows ->
  exists new,
    rows = out ++ new /\
    (List.length new <= List.length polygons)%nat /\
    Forall (rowOf currentFrame polygons) new.
Proof.
  revert out rows. induction polygons as [|p rest IH]; intros out rows H.
  - cbn in H. injection H as <-. exists []. rewrite app_nil_r.
    split; [reflexivity|]. split; [apply le_n | constructor].
  - cbn [polygonLoop] in H. apply bind_OK in H. destruct H as (r & Er & H).
    destruct (IH _ _ H) as (new & -> & Hlen & Hall).
    assert (Forall (rowOf currentFrame (p :: rest)) new) as Hall'.
    { eapply Forall_impl; [|exact Hall].
      intros row (F & I & poly & Hp & Ha).
      split; [exact F|]. split; [exact I|].
      exists poly. split; [right|]; assumption. }
    destruct r as [row|].
    + exists (row :: new). rewrite <- app_assoc.
      split; [reflexivity|]. split; [simpl; lia|].
      constructor; [|exact Hall'].
      unfold processPolygon in Er. apply bind_OK in Er.
      destruct Er as (ms & _ & Er).
      destruct (cornerLoop_Some _ _ _ _ _ _ Er) as (c & mid & Hc & Ed).
      destruct (decodeMarker_OK _ _ _ _ _ Ed) as (F & A & I).
      split; [exact F|]. split; [exact I|].
      exists p. split; [left; reflexivity | rewrite A; exact Hc].
    + exists new. split; [reflexivity|]. split; [simpl; lia | exact Hall'].
Qed.

(** X10: when a frame is processed to the end there is at most one row
    for each polygon, and every row carries the current frame index, an
    identifier from 0 to 511 and, as anchor, a vertex of one of the
    polygons of the frame. *)
Theorem frame_rows_invariant (gray : image) (currentFrame : Z)
    (polygons : list (list point)) (rows : list OutputRecord) :
  detectAndLabelMarkers gray currentFrame polygons = OK rows ->
  (List.length rows <= List.length polygons)%nat /\
  Forall (fun row =>
            frameIndex row = currentFrame /\
            0 <= identifier row < 512 /\
            exists poly,
              In poly polygons /\ In (anchorX row, anchorY row) poly) rows.
Proof.
  intros H. unfold detectAndLabelMarkers in H.
  destruct (polygonLoop_rows _ _ _ _ _ H) as (new & -> & Hlen & Hall).
  split; [exact Hlen | exact Hall].
Qed.

Lemma frame_rows_invariant_witness :
  detectAndLabelMarkers halfBright 7 [wideOutline; notchedMarker]
  = OK [{| frameIndex := 7; identifier := 24;
           anchorX := 100; anchorY := 100 |}] /\
  (1 <= 2)%nat.
Proof.
  assert (detectAndLabelMarkers halfBright 7 [wideOutline; notchedMarker]
          = OK [{| frameIndex := 7; identifier := 24;
                   anchorX := 100; anchorY := 100 |}]) as E by reflexivity.
  split; [exact E|].
  exact (proj1 (frame_rows_invariant halfBright 7 _ _ E)).
Defined.

Lemma getitem_vertexAt (poly : list point) (i : Z) :
  0 <= i < len poly -> getitem poly i = OK (vertexAt poly i).
Proof.
  intros H. destruct (getitem_within poly i H) as [a E]. rewrite E.
  apply getitem_nth_error in E. destruct E as [_ E].
  unfold vertexAt. f_equal. symmetry. apply nth_error_nth. exact E.
Qed.

Lemma shortSides_spec (poly pre l : list point) :
  poly = pre ++ l ->
  exists ms,
    shortSides poly (len poly) (enumerateFrom (len pre) l) = OK ms /\
    StronglySorted Z.lt ms /\
    forall i, In i ms <-> len pre <= i < len poly /\ isShort (sideOf poly i).
Proof.
  revert pre. induction l as [|v l IH]; intros pre E.
  - exists []. split; [reflexivity|]. split; [constructor|].
    intros i. split; [intros []|]. intros [H _].
    rewrite E, app_nil_r in H. lia.
  - assert (len poly = len pre + 1 + len l) as Hlen
      by (rewrite E; unfold len; rewrite length_app; simpl; lia).
    assert (0 <= len pre /\ 0 <= len l) as [Hp Hl] by (unfold len; lia).
    destruct (IH (pre ++ [v])) as (tl & Etl & Stl & Itl).
    { rewrite E, <- app_assoc. reflexivity. }
    assert (len (pre ++ [v]) = len pre + 1) as Hpre
      by (unfold len; rewrite length_app; simpl; lia).
    rewrite Hpre in Etl, Itl.
    assert (vertexAt poly (len pre) = v) as Hv.
    { unfold vertexAt, len. rewrite Nat2Z.id, E. apply nth_middle. }
    cbn [enumerateFrom shortSides].
    rewrite getitem_vertexAt by (apply Z.mod_pos_bound; lia).
    cbn [bind]. rewrite Etl. cbn [bind].
    assert (root_ltb (computeDistance v
                        (vertexAt poly ((len pre + 1) mod len poly))) 80 = true
            <-> isShort (sideOf poly (len pre))) as Hs.
    { rewrite root_ltb_short. unfold sideOf. rewrite Hv. reflexivity. }
    assert (Forall (Z.lt (len pre)) tl) as Hgt.
    { apply Forall_forall. intros i Hi. apply Itl in Hi. lia. }
    destruct (root_ltb _ 80) eqn:Eb.
    + eexists. split; [reflexivity|]. split; [constructor; assumption|].
      intros i. cbn [In]. rewrite Itl. split.
      * intros [<- | [H1 H2]]; [|split; [lia | exact H2]].
        split; [lia | apply Hs; reflexivity].
      * intros [H1 H2]. destruct (Z.eq_dec (len pre) i) as [|N];
          [left; assumption | right; split; [lia | exact H2]].
    + exists tl. split; [reflexivity|]. split; [exact Stl|].
      intros i. rewrite Itl. split.
      * intros [H1 H2]. split; [lia | exact H2].
      * intros [H1 H2]. split; [|exact H2].
        destruct (Z.eq_dec (len pre) i) as [<-|N]; [|lia].
        apply Hs in H2. discriminate.
Qed.

Lemma sorted_count (l : list Z) :
  StronglySorted Z.lt l ->
  forall m n, (forall i, In i l -> m <= i < n) -> len l <= Z.max 0 (n - m).
Proof.
  induction 1 as [|a l Hl IH Ha]; intros m n Hr; [unfold len; simpl; lia|].
  rewrite Forall_forall in Ha.
  assert (len (a :: l) = 1 + len l) as ->
    by (unfold len; cbn [List.length]; lia).
  pose proof (Hr a (or_introl eq_refl)).
  assert (len l <= Z.max 0 (n - (a + 1))); [|lia].
  apply IH. intros i Hi. pose proof (Ha i Hi).
  pose proof (Hr i (or_intror Hi)). lia.
Qed.

(** X11: for a polygon of any number of vertices, none included, the
    short sides are found without an exception: the list holds, by
    increasing index, exactly the indices of the sides whose Euclidean
    length is below 80, the side from the last vertex back to the first
    among them; it is no longer than the polygon. *)
Theorem short_sides_any_polygon (poly : list point) :
  exists ms,
    matchingSidesOf poly = OK ms /\
    StronglySorted Z.lt ms /\
    (forall i, In i ms <-> 0 <= i < len poly /\ isShort (sideOf poly i)) /\
    len ms <= len poly.
Proof.
  destruct (shortSides_spec poly [] poly eq_refl) as (ms & E & Hs & Hin).
  exists ms. split; [exact E|]. split; [exact Hs|]. split; [exact Hin|].
  assert (0 <= len poly) by (unfold len; lia).
  pose proof (sorted_count ms Hs 0 (len poly)
                (fun i Hi => proj1 (proj1 (Hin i) Hi))).
  lia.
Qed.

(** ** The bits of the identifier *)

Lemma testbit_lsbFirstValue (bits : list bool) (k : nat) :
  Z.testbit (lsbFirstValue bits) (Z.of_nat k) = nth k bits false.
Proof.
  revert k. induction bits as [|b rest IH]; intros k.
  - destruct k; apply Z.testbit_0_l.
  - cbn [lsbFirstValue].
    replace ((if b then 1 else 0) + 2 * lsbFirstValue rest)
      with (2 * lsbFirstValue rest + Z.b2z b)
      by (destruct b; cbn [Z.b2z]; lia).
    destruct k as [|k].
    + apply Z.testbit_0_r.
    + rewrite Nat2Z.inj_succ, Z.testbit_succ_r by lia. apply IH.
Qed.

(** X12: bit [k] of the decoded identifier is the [k]-th sample along
    the path from the corner: it is 1 when the intensity read there is at
    most 180 and 0 when it exceeds 180; the bits above the last sample
    are 0. *)
Theorem identifier_bits (gray : image) (markerAxis : list point)
    (centres vs : list Z) :
  range3 (cycleJumpOf (len markerAxis)) (len markerAxis)
         (cycleJumpOf (len markerAxis)) = OK centres ->
  mapM (lookupAt gray markerAxis) (lookupIndices centres 0) = OK vs ->
  exists id,
    decodeRing gray markerAxis = OK id /\
    forall k : nat,
      Z.testbit id (Z.of_nat k)
      = match nth_error vs k with
        | Some v => negb (v >? 180)
        | None => false
        end.
Proof.
  intros R Evs. exists (lsbFirstValue (map bitOf vs)). split.
  - rewrite (decodeRing_unfold gray markerAxis centres R), Evs. cbn [bind].
    apply int2_reversed.
    intros N. apply (f_equal (@List.length bool)) in N.
    rewrite length_map, (mapM_length _ _ _ Evs), lookupIndices_length in N.
    assert (6 <= len markerAxis) as H
      by (apply (range3_OK_long _ centres); [unfold len; lia | exact R]).
    destruct (centres_bounds _ _ H R) as [Hlen _].
    pose proof (sample_count_bounds (len markerAxis) H) as [Hn _].
    unfold len in Hlen at 1. simpl in N. lia.
  - intros k. rewrite testbit_lsbFirstValue.
    destruct (nth_error vs k) as [v|] eqn:Ek.
    + rewrite (nth_error_nth (map bitOf vs) k false (x := bitOf v));
        [reflexivity|].
      rewrite nth_error_map, Ek. reflexivity.
    + apply nth_overflow. rewrite length_map. apply nth_error_None. exact Ek.
Qed.

Lemma identifier_bits_witness :
  range3 (cycleJumpOf (len verticalAxis)) (len verticalAxis)
         (cycleJumpOf (len verticalAxis)) = OK [19; 38; 57; 76; 95] /\
  mapM (lookupAt halfBright verticalAxis)
       (lookupIndices [19; 38; 57; 76; 95] 0) = OK [255; 255; 255; 0; 0] /\
  exists id,
    decodeRing halfBright verticalAxis = OK id /\
    Z.testbit id 3 = true /\ Z.testbit id 0 = false.
Proof.
  assert (range3 (cycleJumpOf (len verticalAxis)) (len verticalAxis)
                 (cycleJumpOf (len verticalAxis)) = OK [19; 38; 57; 76; 95])
    as R by reflexivity.
  assert (mapM (lookupAt halfBright verticalAxis)
               (lookupIndices [19; 38; 57; 76; 95] 0)
          = OK [255; 255; 255; 0; 0]) as V by reflexivity.
  split; [exact R|]. split; [exact V|].
  destruct (identifier_bits halfBright verticalAxis _ _ R V) as (id & E & B).
  exists id. split; [exact E|].
  split; [exact (B 3%nat) | exact (B 0%nat)].
Defined.

(** ** Diagonals *)

(** With equal extents the decision variable stays at the extent and
    every pass steps along both axes. *)
Lemma lineLoop_diagonal (n j : nat) (d xs ys x y : Z) :
  0 < d -> Z.abs xs = 1 ->
  lineLoop n d d xs ys (fun a b => (a, b))
           (x + xs * Z.of_nat j, y + ys * Z.of_nat j, d)
  = map (fun k => (x + xs * Z.of_nat k, y + ys * Z.of_nat k)) (seq (S j) n).
Proof.
  intros Hd Hxs. revert j. induction n as [|n IH]; intros j; [reflexivity|].
  cbn [lineLoop lineStep seq map].
  destruct (Z.leb_spec 0 d) as [_|]; [|lia].
  replace (x + xs * Z.of_nat j + xs - (x + xs * Z.of_nat j)) with xs by lia.
  rewrite Hxs.
  replace (d + 2 * d - 2 * d * 1) with d by lia.
  replace (x + xs * Z.of_nat j + xs) with (x + xs * Z.of_nat (S j)) by lia.
  replace (y + ys * Z.of_nat j + ys) with (y + ys * Z.of_nat (S j)) by lia.
  rewrite IH. reflexivity.
Qed.

(** X13: an exact diagonal is drawn as a run of diagonal steps; [y]
    always moves towards [y1], and [x] moves towards smaller [x] only
    when [x0 > x1] and [y0 < y1], so the diagonal towards smaller [x] and
    smaller [y] runs towards larger [x]. *)
Theorem bresenham_diagonal (x0 y0 x1 y1 : Z) :
  Z.abs (x1 - x0) = Z.abs (y1 - y0) ->
  bresenhamLineGenerator x0 y0 x1 y1
  = OK (map (fun k =>
               (x0 + (if (x0 >? x1) && (y0 <? y1) then -1 else 1) * Z.of_nat k,
                y0 + (if y0 >? y1 then -1 else 1) * Z.of_nat k))
            (seq 0 (S (Z.to_nat (Z.abs (y1 - y0)))))).
Proof.
  intros H. rewrite bresenham_steep by lia.
  unfold steepXStep. rewrite H, Z.ltb_irrefl. cbn [andb orb seq map].
  f_equal. f_equal; [f_equal; lia|].
  destruct (Z.eq_dec (Z.abs (y1 - y0)) 0) as [Z0|NZ].
  - rewrite Z0. reflexivity.
  - replace (2 * Z.abs (y1 - y0) - Z.abs (y1 - y0)) with (Z.abs (y1 - y0))
      by lia.
    pose proof (lineLoop_diagonal (Z.to_nat (Z.abs (y1 - y0))) 0
                  (Z.abs (y1 - y0))
                  (if (x0 >? x1) && (y0 <? y1) then -1 else 1)
                  (if y0 >? y1 then -1 else 1) x0 y0 ltac:(lia)
                  ltac:(destruct (_ && _); reflexivity)) as L.
    replace (x0 + (if (x0 >? x1) && (y0 <? y1) then -1 else 1) * Z.of_nat 0)
      with x0 in L by lia.
    replace (y0 + (if y0 >? y1 then -1 else 1) * Z.of_nat 0)
      with y0 in L by lia.
    exact L.
Qed.

Lemma bresenham_diagonal_witness :
  Z.abs (0 - 3) = Z.abs (0 - 3) /\
  bresenhamLineGenerator 3 3 0 0 = OK [(3, 3); (4, 2); (5, 1); (6, 0)].
Proof.
  split; [reflexivity|].
  exact (bresenham_diagonal 3 3 0 0 eq_refl).
Defined.
